(** * RxPoller: a named, restartable poller with exponential backoff

    Shallow embedding of the class [RxPoller] as it is written in
    [src/RxPoller.ts] and as it was compiled to [dist/RxPoller.js].
    The two files are two builds of the same class and differ in three
    places, which the embedding keeps apart through [Build]:
      - the initial value of [_maxInterval$] (8000 in the TypeScript
        source, 0 in the compiled file);
      - [setAction] ([() => fn] in the TypeScript source, [() => fn()] in
        the compiled file);
      - [_name], [destroy] and [removePoller], which only the compiled
        file has.

    Numbers are modelled by [Z]: intervals are millisecond counts and the
    error counter is a natural number, for which the arithmetic of the
    program ([*], [Math.pow(2, _)], [Math.min], [+ 1]) is exact.

    The class is wiring over RxJS 4.  The operators it uses are modelled
    by the state they keep:
      - a [BehaviorSubject] is its current value plus its observers; its
        only observers here are the live subscriptions to
        [_computedInterval$];
      - [zip] keeps one queue per source and emits when all queues are
        non-empty, shifting one value from each: it pairs values by
        their order of arrival, not by what is current;
      - [flatMap] keeps every inner subscription alive until it completes
        or the chain is disposed;
      - [Observable.timer d] is an entry in the scheduler queue, due
        [max 0 d] milliseconds after its subscription, never fired early;
      - [repeatWhen] and [retryWhen] forward values, hand completions
        (resp. errors) to their notifier chain, and resubscribe to the
        source when the chain emits while they are waiting for it;
      - [publish] / [connect] give one connection at a time, whose
        disposal tears the whole chain down. *)

From stdpp Require Import base numbers strings list gmap.

Local Open Scope Z_scope.

(** ** JavaScript values *)

(** [a || b] on numbers: [0] is falsy. *)
Definition truthy (n : Z) : bool := negb (n =? 0).

Definition js_or (a b : Z) : Z := if truthy a then a else b.

(** [o.f || b] where the property [f] may be absent ([undefined]). *)
Definition prop_or (a : option Z) (b : Z) : Z :=
  match a with
  | Some n => js_or n b
  | None => b
  end.

(** [interface IRxPollerConfig { interval?: number, maxInterval?: number }] *)
Record IRxPollerConfig := mkConfig {
  interval : option Z;
  maxInterval : option Z
}.

(** What a call can throw. *)
Inductive Exn :=
| TypeError               (* property read on undefined, call of a non-function *)
| DuplicateName.          (* "Cannot cache two RxPollers with the same name." *)

(** The user's action function, a subscriber callback and a resolved
    value are opaque to the class: they are named by numbers. *)
Definition Fn := nat.
Definition Callback := nat.
Definition Value := nat.

(** The closure stored in [_action].  The user's function is taken to
    be what the doc comment of [setAction] asks for: a plain function
    that returns a promise (so the function object itself has no [then]
    and a call of it does not throw). *)
Inductive Thunk :=
| ReturnsFn (fn : Fn)     (* () => fn   : hands back the function object *)
| CallsFn (fn : Fn).      (* () => fn() : calls it and hands back its promise *)

Inductive Build := Ts | Dist.

(** ** _computedInterval$: the result selector of the zip *)

Definition computedInterval (interval errorCnt maxInterval : Z) : Z :=
  let calInt := interval * 2 ^ errorCnt in
  Z.min calInt maxInterval.

(** ** State kept by the Rx operators *)

(** The two notifier chains that subscribe to [_computedInterval$]. *)
Inductive Chain := Repeat | Retry.

(** The three sources of the zip, in argument order. *)
Inductive Source := SInterval | SErrorCount | SMaxInterval.

(** One live subscription to [_computedInterval$]. *)
Record Zip := mkZip {
  zchain : Chain;
  q_interval : list Z;
  q_errorCnt : list Z;
  q_maxInterval : list Z
}.

Inductive TimerKind :=
| TStart                  (* the timer of [start] *)
| TLoop (c : Chain).      (* a timer of a notifier chain *)

Record Timer := mkTimer {
  due : Z;
  tkind : TimerKind
}.

(** [Observable.timer(d)] subscribed at time [now]. *)
Definition timer (now d : Z) (k : TimerKind) : Timer :=
  mkTimer (now + Z.max 0 d) k.

Inductive Phase :=
| Invoking (inv : nat)    (* the promise of invocation [inv] is pending *)
| Waiting (c : Chain).    (* chain [c] holds the resubscription *)

(** The connection of [_poller$]. *)
Record Conn := mkConn {
  cid : nat;
  cphase : Phase
}.

(** The value of the field [_connection]. *)
Inductive Disposable :=
| DNoop                   (* Disposable.create(Rx.helpers.noop) *)
| DConnect (k : nat).     (* the object returned by connect number [k] *)

(** What an outside observer sees. *)
Inductive Obs :=
| Invoked (f : Fn) (inv : nat) (t : Z)
| Delivered (cb : Callback) (v : Value) (t : Z).

Inductive Settlement :=
| Resolved (v : Value)
| Rejected (e : Value).

(** ** An instance *)

Record RxPoller := mkPoller {
  _name : option string;          (* compiled build only *)
  _action : option Thunk;         (* undefined until setAction *)
  _connection : Disposable;
  _errorCount : Z;                (* _errorCount$.getValue() *)
  _interval : Z;                  (* _interval$.getValue() *)
  _maxInterval : Z;               (* _maxInterval$.getValue() *)
  zips : list Zip;                (* observers of the three subjects, oldest first *)
  conn : option Conn;             (* the connection inside _poller$ *)
  subscribers : list Callback;    (* observers of the published subject *)
  timers : list Timer;            (* scheduler queue, oldest first *)
  clock : Z;
  next_id : nat;
  trace : list Obs                (* oldest first *)
}.

Definition set_name v p := mkPoller v (_action p) (_connection p) (_errorCount p)
  (_interval p) (_maxInterval p) (zips p) (conn p) (subscribers p) (timers p)
  (clock p) (next_id p) (trace p).
Definition set_action v p := mkPoller (_name p) v (_connection p) (_errorCount p)
  (_interval p) (_maxInterval p) (zips p) (conn p) (subscribers p) (timers p)
  (clock p) (next_id p) (trace p).
Definition set_connection v p := mkPoller (_name p) (_action p) v (_errorCount p)
  (_interval p) (_maxInterval p) (zips p) (conn p) (subscribers p) (timers p)
  (clock p) (next_id p) (trace p).
Definition set_errorCount v p := mkPoller (_name p) (_action p) (_connection p) v
  (_interval p) (_maxInterval p) (zips p) (conn p) (subscribers p) (timers p)
  (clock p) (next_id p) (trace p).
Definition set_interval v p := mkPoller (_name p) (_action p) (_connection p)
  (_errorCount p) v (_maxInterval p) (zips p) (conn p) (subscribers p) (timers p)
  (clock p) (next_id p) (trace p).
Definition set_maxInterval v p := mkPoller (_name p) (_action p) (_connection p)
  (_errorCount p) (_interval p) v (zips p) (conn p) (subscribers p) (timers p)
  (clock p) (next_id p) (trace p).
Definition set_zips v p := mkPoller (_name p) (_action p) (_connection p)
  (_errorCount p) (_interval p) (_maxInterval p) v (conn p) (subscribers p)
  (timers p) (clock p) (next_id p) (trace p).
Definition set_conn v p := mkPoller (_name p) (_action p) (_connection p)
  (_errorCount p) (_interval p) (_maxInterval p) (zips p) v (subscribers p)
  (timers p) (clock p) (next_id p) (trace p).
Definition set_subscribers v p := mkPoller (_name p) (_action p) (_connection p)
  (_errorCount p) (_interval p) (_maxInterval p) (zips p) (conn p) v (timers p)
  (clock p) (next_id p) (trace p).
Definition set_timers v p := mkPoller (_name p) (_action p) (_connection p)
  (_errorCount p) (_interval p) (_maxInterval p) (zips p) (conn p)
  (subscribers p) v (clock p) (next_id p) (trace p).
Definition set_clock v p := mkPoller (_name p) (_action p) (_connection p)
  (_errorCount p) (_interval p) (_maxInterval p) (zips p) (conn p)
  (subscribers p) (timers p) v (next_id p) (trace p).
Definition set_next_id v p := mkPoller (_name p) (_action p) (_connection p)
  (_errorCount p) (_interval p) (_maxInterval p) (zips p) (conn p)
  (subscribers p) (timers p) (clock p) v (trace p).
Definition set_trace v p := mkPoller (_name p) (_action p) (_connection p)
  (_errorCount p) (_interval p) (_maxInterval p) (zips p) (conn p)
  (subscribers p) (timers p) (clock p) (next_id p) v.

(** ** zip *)

Definition zip_push (s : Source) (v : Z) (z : Zip) : Zip :=
  match s with
  | SInterval => mkZip (zchain z) (q_interval z ++ [v]) (q_errorCnt z) (q_maxInterval z)
  | SErrorCount => mkZip (zchain z) (q_interval z) (q_errorCnt z ++ [v]) (q_maxInterval z)
  | SMaxInterval => mkZip (zchain z) (q_interval z) (q_errorCnt z) (q_maxInterval z ++ [v])
  end.

(** A source delivers [v] to one zip subscription: the value is queued,
    and when every queue holds a value the heads are combined. *)
Definition zip_onNext (s : Source) (v : Z) (z : Zip) : Zip * option Z :=
  let z' := zip_push s v z in
  match q_interval z', q_errorCnt z', q_maxInterval z' with
  | i :: qi, e :: qe, m :: qm =>
      (mkZip (zchain z) qi qe qm, Some (computedInterval i e m))
  | _, _, _ => (z', None)
  end.

(** [.flatMap(interval => Observable.timer(interval))] on what a zip of
    chain [c] emitted. *)
Definition emitted (now : Z) (c : Chain) (out : option Z) : list Timer :=
  match out with
  | Some d => [timer now d (TLoop c)]
  | None => []
  end.

Fixpoint zips_onNext (s : Source) (v : Z) (now : Z) (zs : list Zip)
  : list Zip * list Timer :=
  match zs with
  | [] => ([], [])
  | z :: zs' =>
      let '(z', out) := zip_onNext s v z in
      let '(zs'', ts) := zips_onNext s v now zs' in
      (z' :: zs'', emitted now (zchain z) out ++ ts)
  end.

Definition set_value (s : Source) (v : Z) (p : RxPoller) : RxPoller :=
  match s with
  | SInterval => set_interval v p
  | SErrorCount => set_errorCount v p
  | SMaxInterval => set_maxInterval v p
  end.

(** [subject.onNext(v)] on one of the three BehaviorSubjects. *)
Definition onNext (s : Source) (v : Z) (p : RxPoller) : RxPoller :=
  let '(zs, ts) := zips_onNext s v (clock p) (zips p) in
  set_timers (timers p ++ ts) (set_zips zs (set_value s v p)).

(** [.flatMap(_ => this._computedInterval$)] in chain [c]: a new
    subscription to the zip, which subscribes to the three subjects in
    turn; each replays its current value. *)
Definition subscribe_computedInterval (c : Chain) (p : RxPoller) : RxPoller :=
  let '(z1, o1) := zip_onNext SInterval (_interval p) (mkZip c [] [] []) in
  let '(z2, o2) := zip_onNext SErrorCount (_errorCount p) z1 in
  let '(z3, o3) := zip_onNext SMaxInterval (_maxInterval p) z2 in
  set_timers (timers p ++ emitted (clock p) c o1 ++ emitted (clock p) c o2
                        ++ emitted (clock p) c o3)
    (set_zips (zips p ++ [z3]) p).

(** ** _poller$: the repeat / retry loop *)

Definition set_phase (k : nat) (ph : Phase) (p : RxPoller) : RxPoller :=
  set_conn (Some (mkConn k ph)) p.

Definition in_repeat_chain (c : Chain) : bool :=
  match c with Repeat => true | Retry => false end.

Definition timer_in_repeat (t : Timer) : bool :=
  match tkind t with
  | TLoop c => in_repeat_chain c
  | TStart => false
  end.

(** The subscription to [source.repeatWhen(...)] detaches after an
    error: its notifier chain goes, with the zip subscriptions and the
    timers its flatMaps hold. *)
Definition dispose_repeat (p : RxPoller) : RxPoller :=
  set_timers (filter (fun t => negb (timer_in_repeat t)) (timers p))
    (set_zips (filter (fun z => negb (in_repeat_chain (zchain z))) (zips p)) p).

(** The published subject forwards a value to its observers. *)
Definition deliver (v : Value) (p : RxPoller) : RxPoller :=
  set_trace (trace p ++ map (fun cb => Delivered cb v (clock p)) (subscribers p)) p.

(** The promise resolved: the value goes downstream, then the completion
    goes through the notifier chain of [repeatWhen]:
    [.do(_ => this._errorCount$.onNext(0))
     .flatMap(_ => this._computedInterval$)
     .flatMap(interval => Observable.timer(interval))]. *)
Definition on_success (k : nat) (v : Value) (p : RxPoller) : RxPoller :=
  let p1 := deliver v p in
  let p2 := onNext SErrorCount 0 p1 in
  let p3 := subscribe_computedInterval Repeat p2 in
  set_phase k (Waiting Repeat) p3.

(** An error reached [retryWhen]; its notifier chain is
    [.do(err => this._errorCount$.onNext(this._errorCount$.getValue() + 1))
     .flatMap(_ => this._computedInterval$)
     .flatMap(interval => Observable.timer(interval))]. *)
Definition on_failure (k : nat) (p : RxPoller) : RxPoller :=
  let p1 := onNext SErrorCount (_errorCount p + 1) p in
  let p2 := subscribe_computedInterval Retry p1 in
  let p3 := dispose_repeat p2 in
  set_phase k (Waiting Retry) p3.

(** A subscription to [Observable.fromPromise(() => this._action())]
    under connection [k].  [_action] undefined: the call throws.
    [_action] returning a function object: it has no [then].  Both are
    errors of the source, raised at once. *)
Definition invoke (k : nat) (p : RxPoller) : RxPoller :=
  match _action p with
  | Some (CallsFn f) =>
      let i := next_id p in
      set_phase k (Invoking i)
        (set_next_id (S i) (set_trace (trace p ++ [Invoked f i (clock p)]) p))
  | Some (ReturnsFn _) => on_failure k p
  | None => on_failure k p
  end.

(** The promise of invocation [i] settles.  Only the subscription that
    made the invocation listens to it. *)
Definition settle (i : nat) (o : Settlement) (p : RxPoller) : RxPoller :=
  match conn p with
  | Some (mkConn k (Invoking j)) =>
      if (i =? j)%nat then
        match o with
        | Resolved v => on_success k v p
        | Rejected _ => on_failure k p
        end
      else p
  | _ => p
  end.

(** [this._poller$.connect()] *)
Definition connect (p : RxPoller) : RxPoller * Disposable :=
  match conn p with
  | Some c => (p, DConnect (cid c))
  | None =>
      let k := next_id p in
      (invoke k (set_next_id (S k) p), DConnect k)
  end.

Definition chain_eqb (a b : Chain) : bool :=
  match a, b with
  | Repeat, Repeat | Retry, Retry => true
  | _, _ => false
  end.

Definition timer_callback (k : TimerKind) (p : RxPoller) : RxPoller :=
  match k with
  | TStart =>
      (* _ => { this._connection = this._poller$.connect(); } *)
      let '(p', d) := connect p in set_connection d p'
  | TLoop c =>
      (* the notifier of chain c emits; it is listened to only while
         that chain holds the resubscription *)
      match conn p with
      | Some (mkConn k (Waiting c')) => if chain_eqb c c' then invoke k p else p
      | _ => p
      end
  end.

(** ** The scheduler *)

(** The timer that is due first, the older one among equals, and the
    rest of the queue. *)
Fixpoint extract_min (ts : list Timer) : option (Timer * list Timer) :=
  match ts with
  | [] => None
  | t :: ts' =>
      match extract_min ts' with
      | None => Some (t, [])
      | Some (m, rest) =>
          if due t <=? due m then Some (t, ts') else Some (m, t :: rest)
      end
  end.

(** The scheduler runs the first timer, if it is due. *)
Definition fire (p : RxPoller) : RxPoller :=
  match extract_min (timers p) with
  | Some (t, rest) =>
      if due t <=? clock p then timer_callback (tkind t) (set_timers rest p)
      else p
  | None => p
  end.

Definition elapse (dt : Z) (p : RxPoller) : RxPoller :=
  set_clock (clock p + Z.max 0 dt) p.

(** ** Methods *)

Inductive Result (A : Type) :=
| Returns (a : A)
| Throws (e : Exn).
Arguments Returns {A} a.
Arguments Throws {A} e.

Definition setAction (b : Build) (fn : Fn) (p : RxPoller) : RxPoller :=
  match b with
  | Ts => set_action (Some (ReturnsFn fn)) p      (* this._action = () => fn; *)
  | Dist => set_action (Some (CallsFn fn)) p      (* this._action = function () { return fn(); }; *)
  end.

Definition setConfig (config : option IRxPollerConfig) (p : RxPoller)
  : Result RxPoller :=
  match config with
  | None => Throws TypeError
  | Some c =>
      let p1 := onNext SInterval
                  (js_or (prop_or (interval c) (_interval p)) 8000) p in
      let p2 := onNext SMaxInterval
                  (js_or (prop_or (maxInterval c) (_maxInterval p1)) 300000) p1 in
      Returns p2
  end.

Definition subscribe (cb : Callback) (p : RxPoller) : RxPoller :=
  set_subscribers (subscribers p ++ [cb]) p.

Definition start (forceStart : bool) (p : RxPoller) : RxPoller :=
  set_timers
    (timers p ++ [timer (clock p) (if forceStart then 0 else _interval p) TStart])
    p.

Definition is_start (t : Timer) : bool :=
  match tkind t with TStart => true | TLoop _ => false end.

(** Disposal of the live connection: the subscription to the source goes,
    with both notifier chains and everything they hold.  The timers of
    [start] are not part of it. *)
Definition dispose_connection (p : RxPoller) : RxPoller :=
  set_conn None (set_zips [] (set_timers (filter is_start (timers p)) p)).

(** [this._connection.dispose()]: the no-op disposable does nothing, and
    so does a connection object that was disposed before. *)
Definition stop (p : RxPoller) : RxPoller :=
  match _connection p, conn p with
  | DConnect k, Some c => if (k =? cid c)%nat then dispose_connection p else p
  | _, _ => p
  end.

(** ** The class: instances and the static map *)

(** [new Map()]: the entries live in the map's own store, reached by
    [get] and [set]; like every object it also has own properties,
    reached by [m[k]] and [delete m[k]]. *)
Record JSMap := mkMap {
  map_data : gmap string nat;
  own_props : gset string
}.

Record World := mkWorld {
  heap : list RxPoller;           (* an instance is its index *)
  _pollers : JSMap
}.

Definition empty_world : World := mkWorld [] (mkMap ∅ ∅).

Definition alloc (p : RxPoller) (w : World) : World :=
  mkWorld (heap w ++ [p]) (_pollers w).

Definition store (this : nat) (p : RxPoller) (w : World) : World :=
  mkWorld (<[this := p]> (heap w)) (_pollers w).

(** The field initialisers. *)
Definition fresh_instance (b : Build) : RxPoller :=
  mkPoller None None DNoop
    0                                             (* new BehaviorSubject(0) *)
    0                                             (* new BehaviorSubject(0) *)
    (match b with Ts => 8000 | Dist => 0 end)     (* new BehaviorSubject(8000) / (0) *)
    [] None [] [] 0 0 [].

Definition setPoller (name : string) (instance : nat) (w : World) : Result World :=
  match map_data (_pollers w) !! name with
  | Some curr => Throws DuplicateName
  | None =>
      Returns (mkWorld (heap w)
                 (mkMap (<[name := instance]> (map_data (_pollers w)))
                        (own_props (_pollers w))))
  end.

Definition getPoller (name : string) (w : World) : option nat :=
  map_data (_pollers w) !! name.

(** [delete this._pollers[name]] *)
Definition removePoller (name : string) (w : World) : World :=
  mkWorld (heap w)
    (mkMap (map_data (_pollers w)) (own_props (_pollers w) ∖ {[name]})).

Inductive Outcome :=
| Returned (this : nat) (w : World)
| Thrown (e : Exn) (w : World).

(** [new RxPoller(name, config)] *)
Definition new_RxPoller (b : Build) (name : string)
    (config : option IRxPollerConfig) (w : World) : Outcome :=
  let this := length (heap w) in
  let w0 := alloc (fresh_instance b) w in
  match setConfig config (fresh_instance b) with
  | Throws e => Thrown e w0
  | Returns p1 =>
      let p2 := match b with
                | Ts => p1
                | Dist => set_name (Some name) p1
                end in
      let w1 := store this p2 w0 in
      match setPoller name this w1 with
      | Throws e => Thrown e w1
      | Returns w2 => Returned this w2
      end
  end.

(** The property key of [this._name]. *)
Definition key_of (n : option string) : string :=
  match n with
  | Some s => s
  | None => "undefined"
  end.

(** [destroy] of the compiled build:
    [this.stop(); RxPoller.removePoller(this._name);] *)
Definition destroy (this : nat) (w : World) : World :=
  match heap w !! this with
  | Some p => removePoller (key_of (_name p)) (store this (stop p) w)
  | None => w
  end.

(** ** Runs of one poller *)

Inductive Event :=
| Start (forceStart : bool)
| Stop
| SetConfig (c : IRxPollerConfig)
| SetAction (fn : Fn)
| Subscribe (cb : Callback)
| Elapse (dt : Z)                       (* time passes *)
| Fire                                  (* the scheduler takes its turn *)
| Settle (inv : nat) (o : Settlement).  (* a promise settles *)

Definition step (b : Build) (p : RxPoller) (e : Event) : RxPoller :=
  match e with
  | Start f => start f p
  | Stop => stop p
  | SetConfig c =>
      match setConfig (Some c) p with
      | Returns p' => p'
      | Throws _ => p
      end
  | SetAction fn => setAction b fn p
  | Subscribe cb => subscribe cb p
  | Elapse dt => elapse dt p
  | Fire => fire p
  | Settle i o => settle i o p
  end.

Definition run (b : Build) (es : list Event) (p : RxPoller) : RxPoller :=
  fold_left (step b) es p.

(** The instance [new RxPoller(name, config)] leaves in an empty world. *)
Definition created (b : Build) (name : string) (c : IRxPollerConfig)
  : option RxPoller :=
  match new_RxPoller b name (Some c) empty_world with
  | Returned this w => heap w !! this
  | Thrown _ _ => None
  end.

(** ** Vocabulary of the properties *)

(** The calls of the user's function in a trace, with their times. *)
Definition invocation_of (o : Obs) : option (Fn * Z) :=
  match o with
  | Invoked f _ t => Some (f, t)
  | Delivered _ _ _ => None
  end.

Definition invocations (p : RxPoller) : list (Fn * Z) :=
  omap invocation_of (trace p).

(** [setConfig(c)] on an instance; it cannot throw. *)
Definition configured (c : IRxPollerConfig) (p : RxPoller) : RxPoller :=
  step Ts p (SetConfig c).

(** [this._name = name], compiled build only. *)
Definition named (b : Build) (name : string) (p : RxPoller) : RxPoller :=
  match b with
  | Ts => p
  | Dist => set_name (Some name) p
  end.

(** The fields that only the methods of the class write. *)
Definition frame (p q : RxPoller) : Prop :=
  _name q = _name p /\ _action q = _action p /\
  _interval q = _interval p /\ _maxInterval q = _maxInterval p /\
  subscribers q = subscribers p /\ clock q = clock p.

(** An event that does not supply the field. *)
Definition leaves_interval (e : Event) : Prop :=
  match e with
  | SetConfig c => interval c = None
  | _ => True
  end.

Definition leaves_maxInterval (e : Event) : Prop :=
  match e with
  | SetConfig c => maxInterval c = None
  | _ => True
  end.

(** No function is called through [_action]. *)
Definition never_calls (p : RxPoller) : Prop :=
  forall f, _action p <> Some (CallsFn f).

(** The field [_connection] holds the live connection whenever there is
    one, and without one nothing of the loop is left. *)
Definition well_linked (p : RxPoller) : Prop :=
  match conn p with
  | Some c => _connection p = DConnect (cid c)
  | None => Forall (fun t => tkind t = TStart) (timers p) /\ zips p = []
  end.

(** Nothing is connected, armed or subscribed. *)
Definition quiet (p : RxPoller) : Prop :=
  conn p = None /\ timers p = [] /\ zips p = [].

(** Any event but a call of [start]. *)
Definition not_start (e : Event) : Prop :=
  match e with
  | Start _ => False
  | _ => True
  end.

(** ** Scenarios *)

(** The world after [new RxPoller("posts", {interval: 5000})]. *)
Definition one_poller (b : Build) : World :=
  mkWorld [named b "posts" (configured (mkConfig (Some 5000) None) (fresh_instance b))]
    (mkMap {["posts" := 0%nat]} ∅).

(** A poller with two subscribers and one failure behind it, its second
    invocation pending. *)
Definition pending_poller : RxPoller :=
  mkPoller (Some "posts") (Some (CallsFn 7%nat)) (DConnect 0) 1 1000 10000
    [mkZip Retry [] [] []] (Some (mkConn 0 (Invoking 2))) [3%nat; 4%nat] []
    3000 3 [Invoked 7%nat 1 1000; Invoked 7%nat 2 3000].

(** Interval 1000, maximum 10000; the action fails twice, then
    succeeds. *)
Section Backoff.
Variables (f : Fn) (cb : Callback) (e1 e2 v : Value) (l1 l2 l3 : Z).

(** [start(false)], then the scheduler is given its turn one
    millisecond before each delay is over and again when it is over;
    the action takes [l1], [l2] and [l3] milliseconds to settle. *)
Definition backoff_script : list Event :=
  [ Subscribe cb; Start false;
    Elapse 999; Fire; Elapse 1; Fire;
    Elapse l1; Settle 1 (Rejected e1);
    Elapse 1999; Fire; Elapse 1; Fire;
    Elapse l2; Settle 2 (Rejected e2);
    Elapse 3999; Fire; Elapse 1; Fire;
    Elapse l3; Settle 3 (Resolved v);
    Elapse 999; Fire; Elapse 1; Fire ].

(** What is seen of that run. *)
Definition backoff_trace : list Obs :=
  [ Invoked f 1 1000;
    Invoked f 2 (1000 + l1 + 2000);
    Invoked f 3 (1000 + l1 + 2000 + l2 + 4000);
    Delivered cb v (1000 + l1 + 2000 + l2 + 4000 + l3);
    Invoked f 4 (1000 + l1 + 2000 + l2 + 4000 + l3 + 1000) ].

End Backoff.

(** ** Programs over the class *)

(** What a program does with the class: it constructs pollers, calls
    their methods (the scheduler's turns and the settlements of a
    poller's promises are events of that poller) and, in the compiled
    build, destroys them. *)
Inductive Op :=
| New (name : string) (config : option IRxPollerConfig)
| Destroy (this : nat)
| Call (this : nat) (e : Event).

(** The world a constructor call leaves, returned or thrown. *)
Definition world_of (o : Outcome) : World :=
  match o with
  | Returned _ w => w
  | Thrown _ w => w
  end.

Definition call (b : Build) (this : nat) (e : Event) (w : World) : World :=
  match heap w !! this with
  | Some p => store this (step b p e) w
  | None => w
  end.

(** The TypeScript source has no [destroy]: the call throws and changes
    nothing. *)
Definition wstep (b : Build) (w : World) (op : Op) : World :=
  match op with
  | New name config => world_of (new_RxPoller b name config w)
  | Destroy this =>
      match b with
      | Ts => w
      | Dist => destroy this w
      end
  | Call this e => call b this e w
  end.

Definition wrun (b : Build) (ops : list Op) (w : World) : World :=
  fold_left (wstep b) ops w.



(** ** Vocabulary of runs *)

(** The time that passed during the events, from [t] on. *)
Definition elapsed_from (t : Z) (es : list Event) : Z :=
  fold_left (fun t e => match e with Elapse dt => t + Z.max 0 dt | _ => t end) es t.

Definition elapsed (es : list Event) : Z := elapsed_from 0 es.

(** The function of the last [setAction] among the events, [a] when
    there is none. *)
Definition latest_from (a : option Fn) (es : list Event) : option Fn :=
  fold_left (fun a e => match e with SetAction f => Some f | _ => a end) es a.

Definition latest_action (es : list Event) : option Fn := latest_from None es.

(** The callbacks the events subscribe, in order. *)
Definition subscribed (es : list Event) : list Callback :=
  omap (fun e => match e with Subscribe cb => Some cb | _ => None end) es.

(** Where an entry of the trace comes from: a call of the installed
    function at a turn of the scheduler, or the hand-over of a resolved
    value to a subscriber. *)
Definition born (p : RxPoller) (e : Event) (o : Obs) : Prop :=
  match o with
  | Invoked f _ t => e = Fire /\ _action p = Some (CallsFn f) /\ t = clock p
  | Delivered cb v t =>
      (exists i, e = Settle i (Resolved v)) /\ cb ∈ subscribers p /\ t = clock p
  end.

Definition not_fire (e : Event) : Prop :=
  match e with
  | Fire => False
  | _ => True
  end.

Definition not_setConfig (e : Event) : Prop :=
  match e with
  | SetConfig _ => False
  | _ => True
  end.

Definition is_loop (t : Timer) : bool := negb (is_start t).

(** A zip subscription that holds no interval and no maximum: it cannot
    emit before a [setConfig]. *)
Definition drained (z : Zip) : Prop :=
  q_interval z = [] /\ q_maxInterval z = [].

(** The loop as it is while no [setConfig] reaches a live zip
    subscription: no timer of the loop unless the loop waits, then
    exactly one, of the chain that waits; and every timer of the loop is
    due within the stored maximum. *)
Definition steady (p : RxPoller) : Prop :=
  Forall drained (zips p) /\
  Forall (fun t => is_loop t -> due t <= clock p + Z.max 0 (_maxInterval p))
         (timers p) /\
  match conn p with
  | Some (mkConn _ (Waiting c)) =>
      exists t, filter is_loop (timers p) = [t] /\ tkind t = TLoop c
  | _ => filter is_loop (timers p) = []
  end.

(** [setConfig] is called only while the poller is not connected. *)
Fixpoint configs_while_idle (b : Build) (es : list Event) (p : RxPoller) : bool :=
  match es with
  | [] => true
  | e :: es' =>
      match e, conn p with
      | SetConfig _, Some _ => false
      | _, _ => configs_while_idle b es' (step b p e)
      end
  end.

(** The loop holds no timer: the state in which a subscription to the
    source is made or settles. *)
Definition calm (p : RxPoller) : Prop :=
  Forall drained (zips p) /\
  Forall (fun t => is_loop t -> due t <= clock p + Z.max 0 (_maxInterval p))
         (timers p) /\
  Forall (fun t => tkind t = TStart) (timers p).


(** The instance [new RxPoller("posts", {})] of the compiled build. *)
Definition posts_poller : RxPoller :=
  named Dist "posts" (configured (mkConfig None None) (fresh_instance Dist)).

(** Configured before [start]; two calls that fail. *)
Definition two_failures_script : list Event :=
  [ SetConfig (mkConfig (Some 4000) (Some 10000)); SetAction 7%nat;
    Start true; Fire; Elapse 50; Settle 1 (Rejected 0%nat);
    Elapse 8000; Fire; Settle 2 (Rejected 0%nat) ].

(** Two calls of [start], one call of the action that succeeds. *)
Definition one_success_script : list Event :=
  [ SetConfig (mkConfig (Some 4000) (Some 10000)); SetAction 7%nat;
    Start true; Start false; Fire; Elapse 50; Settle 1 (Resolved 42%nat) ].

(** * Properties *)

(** ** The backoff delay *)







(** ** What the operators leave alone *)

Lemma onNext_eq s v p :
  onNext s v p =
  set_timers (timers p ++ (zips_onNext s v (clock p) (zips p)).2)
    (set_zips (zips_onNext s v (clock p) (zips p)).1 (set_value s v p)).
Proof. unfold onNext. by destruct (zips_onNext _ _ _ _). Qed.

(** A new subscription to the zip emits once, from the current values,
    and is left with empty queues. *)
Lemma subscribe_computedInterval_eq c p :
  subscribe_computedInterval c p =
  set_timers
    (timers p ++ [timer (clock p)
                    (computedInterval (_interval p) (_errorCount p) (_maxInterval p))
                    (TLoop c)])
    (set_zips (zips p ++ [mkZip c [] [] []]) p).
Proof. reflexivity. Qed.

Lemma frame_refl p : frame p p.
Proof. by repeat split. Qed.

Lemma frame_trans p q r : frame p q -> frame q r -> frame p r.
Proof. unfold frame. intros (?&?&?&?&?&?) (?&?&?&?&?&?). repeat split; congruence. Qed.

Lemma frame_action p q : frame p q -> _action q = _action p.
Proof. by intros (?&?&?). Qed.

Lemma frame_interval p q : frame p q -> _interval q = _interval p.
Proof. by intros (?&?&?&?). Qed.

Lemma frame_maxInterval p q : frame p q -> _maxInterval q = _maxInterval p.
Proof. by intros (?&?&?&?&?). Qed.

Lemma frame_subscribers p q : frame p q -> subscribers q = subscribers p.
Proof. by intros (?&?&?&?&?&?). Qed.

Lemma frame_clock p q : frame p q -> clock q = clock p.
Proof. by intros (?&?&?&?&?&?). Qed.

Lemma on_failure_frame k p : frame p (on_failure k p).
Proof.
  unfold on_failure. rewrite subscribe_computedInterval_eq, onNext_eq.
  by repeat split.
Qed.

Lemma on_success_frame k v p : frame p (on_success k v p).
Proof.
  unfold on_success. rewrite subscribe_computedInterval_eq, onNext_eq.
  by repeat split.
Qed.

Lemma invoke_frame k p : frame p (invoke k p).
Proof.
  unfold invoke. destruct (_action p) as [[f|f]|] eqn:Ha;
    auto using on_failure_frame.
  by repeat split.
Qed.

Lemma settle_frame i o p : frame p (settle i o p).
Proof.
  unfold settle. destruct (conn p) as [[k [j|c]]|]; auto using frame_refl.
  destruct (i =? j)%nat; auto using frame_refl.
  destruct o; auto using on_success_frame, on_failure_frame.
Qed.

Lemma timer_callback_frame k p : frame p (timer_callback k p).
Proof.
  unfold timer_callback, connect. destruct k as [|c].
  - destruct (conn p) as [c|]; [by repeat split|].
    eapply frame_trans; [|split_and!; reflexivity].
    eapply frame_trans; [|apply invoke_frame]. by repeat split.
  - destruct (conn p) as [[k [j|c']]|]; auto using frame_refl.
    destruct (chain_eqb c c'); auto using frame_refl, invoke_frame.
Qed.

Lemma fire_frame p : frame p (fire p).
Proof.
  unfold fire. destruct (extract_min (timers p)) as [[t rest]|]; auto using frame_refl.
  destruct (due t <=? clock p); auto using frame_refl.
  eapply frame_trans; [|apply timer_callback_frame]. by repeat split.
Qed.

Lemma stop_frame p : frame p (stop p).
Proof.
  unfold stop. destruct (_connection p); auto using frame_refl.
  destruct (conn p) as [c|]; auto using frame_refl.
  destruct (k =? cid c)%nat; auto using frame_refl. by repeat split.
Qed.

Lemma start_frame f p : frame p (start f p).
Proof. by repeat split. Qed.

Lemma setAction_frame_config b f p :
  _interval (setAction b f p) = _interval p /\
  _maxInterval (setAction b f p) = _maxInterval p /\
  trace (setAction b f p) = trace p.
Proof. by destruct b. Qed.

(** ** setConfig *)

Lemma js_or_nonzero (a d : Z) : d <> 0 -> js_or a d <> 0.
Proof.
  intros Hd. unfold js_or, truthy. destruct (Z.eqb_spec a 0); simpl; lia.
Qed.

Lemma js_or_keeps (cur d : Z) : cur <> 0 -> js_or (prop_or None cur) d = cur.
Proof.
  intros Hc. unfold js_or, truthy. simpl.
  destruct (Z.eqb_spec cur 0); simpl; congruence.
Qed.

Lemma js_or_takes (v cur d : Z) : v <> 0 -> js_or (prop_or (Some v) cur) d = v.
Proof.
  intros Hv. unfold prop_or, js_or, truthy.
  destruct (Z.eqb_spec v 0); simpl; [congruence|].
  destruct (Z.eqb_spec v 0); simpl; congruence.
Qed.

Lemma setConfig_returns c p : exists p', setConfig (Some c) p = Returns p'.
Proof. simpl. eauto. Qed.

Lemma setConfig_interval c p p' :
  setConfig (Some c) p = Returns p' ->
  _interval p' = js_or (prop_or (interval c) (_interval p)) 8000.
Proof. simpl. intros [= <-]. by rewrite !onNext_eq. Qed.

Lemma setConfig_maxInterval c p p' :
  setConfig (Some c) p = Returns p' ->
  _maxInterval p' = js_or (prop_or (maxInterval c) (_maxInterval p)) 300000.
Proof. simpl. intros [= <-]. by rewrite !onNext_eq. Qed.

Lemma setConfig_frame c p p' :
  setConfig (Some c) p = Returns p' ->
  _name p' = _name p /\ _action p' = _action p /\ trace p' = trace p /\
  _errorCount p' = _errorCount p /\ conn p' = conn p /\
  _connection p' = _connection p /\ subscribers p' = subscribers p /\
  clock p' = clock p /\ next_id p' = next_id p.
Proof. simpl. intros [= <-]. by rewrite !onNext_eq. Qed.

Lemma step_keeps_interval b e p :
  _interval p <> 0 -> leaves_interval e ->
  _interval (step b p e) = _interval p.
Proof.
  intros Hp He. destruct e as [f| |c|fn|cb|dt| |i o]; simpl in He |- *;
    try reflexivity.
  - apply frame_interval, stop_frame.
  - rewrite !onNext_eq. simpl. rewrite He. by apply js_or_keeps.
  - apply setAction_frame_config.
  - apply frame_interval, fire_frame.
  - apply frame_interval, settle_frame.
Qed.

Lemma step_keeps_maxInterval b e p :
  _maxInterval p <> 0 -> leaves_maxInterval e ->
  _maxInterval (step b p e) = _maxInterval p.
Proof.
  intros Hp He. destruct e as [f| |c|fn|cb|dt| |i o]; simpl in He |- *;
    try reflexivity.
  - apply frame_maxInterval, stop_frame.
  - rewrite !onNext_eq. simpl. rewrite He. by apply js_or_keeps.
  - apply setAction_frame_config.
  - apply frame_maxInterval, fire_frame.
  - apply frame_maxInterval, settle_frame.
Qed.

Lemma run_cons b e es p : run b (e :: es) p = run b es (step b p e).
Proof. reflexivity. Qed.

Lemma run_keeps_interval b es : forall p,
  _interval p <> 0 -> Forall leaves_interval es ->
  _interval (run b es p) = _interval p.
Proof.
  induction es as [|e es IH]; intros p Hp Hes; [reflexivity|].
  inversion Hes as [|? ? He Hes']; subst. rewrite run_cons.
  pose proof (step_keeps_interval b e p Hp He) as Hs.
  rewrite IH; [done|congruence|done].
Qed.

Lemma run_keeps_maxInterval b es : forall p,
  _maxInterval p <> 0 -> Forall leaves_maxInterval es ->
  _maxInterval (run b es p) = _maxInterval p.
Proof.
  induction es as [|e es IH]; intros p Hp Hes; [reflexivity|].
  inversion Hes as [|? ? He Hes']; subst. rewrite run_cons.
  pose proof (step_keeps_maxInterval b e p Hp He) as Hs.
  rewrite IH; [done|congruence|done].
Qed.

(** ** The constructor *)

Lemma configured_eq c p : setConfig (Some c) p = Returns (configured c p).
Proof. reflexivity. Qed.

Lemma new_RxPoller_free b name c w :
  getPoller name w = None ->
  new_RxPoller b name (Some c) w =
  Returned (length (heap w))
    (mkWorld (heap w ++ [named b name (configured c (fresh_instance b))])
       (mkMap (<[name := length (heap w)]> (map_data (_pollers w)))
              (own_props (_pollers w)))).
Proof.
  unfold getPoller. intros Hfree. unfold new_RxPoller.
  rewrite configured_eq. unfold setPoller, store, alloc. simpl.
  rewrite Hfree. f_equal. f_equal.
  rewrite insert_app_r_alt by lia. rewrite Nat.sub_diag.
  by destruct b.
Qed.

Lemma created_eq b name c :
  created b name c = Some (named b name (configured c (fresh_instance b))).
Proof.
  unfold created. rewrite new_RxPoller_free by apply lookup_empty.
  simpl. reflexivity.
Qed.

(** C5, TypeScript source: with [maxInterval] never supplied the stored
    maximum is 8000, the initial value of [_maxInterval$], which is
    truthy, so the fallback [|| 300000] is never reached. *)
Theorem ts_maxInterval_never_supplied (name : string) (c : IRxPollerConfig)
    (es : list Event) :
  maxInterval c = None -> Forall leaves_maxInterval es ->
  exists p, created Ts name c = Some p /\ _maxInterval (run Ts es p) = 8000.
Proof.
  intros Hc Hes. rewrite created_eq. eexists. split; [reflexivity|].
  assert (Hp : _maxInterval (named Ts name (configured c (fresh_instance Ts))) = 8000).
  { simpl. by rewrite Hc. }
  rewrite run_keeps_maxInterval; [done|lia|done].
Qed.

Lemma ts_maxInterval_never_supplied_witness :
  exists p, created Ts "posts" (mkConfig (Some 5000) None) = Some p /\
            _maxInterval (run Ts [SetConfig (mkConfig (Some 6000) None); Start true] p)
            = 8000.
Proof.
  apply (ts_maxInterval_never_supplied "posts" (mkConfig (Some 5000) None)
           [SetConfig (mkConfig (Some 6000) None); Start true]).
  - reflexivity.
  - repeat constructor.
Defined.

(** The compiled build starts [_maxInterval$] at 0 and reaches the
    fallback. *)
Lemma dist_maxInterval_never_supplied (name : string) (c : IRxPollerConfig)
    (es : list Event) :
  maxInterval c = None -> Forall leaves_maxInterval es ->
  exists p, created Dist name c = Some p /\ _maxInterval (run Dist es p) = 300000.
Proof.
  intros Hc Hes. rewrite created_eq. eexists. split; [reflexivity|].
  assert (Hp : _maxInterval (named Dist name (configured c (fresh_instance Dist)))
               = 300000).
  { simpl. by rewrite Hc. }
  rewrite run_keeps_maxInterval; [done|lia|done].
Qed.

Lemma dist_maxInterval_never_supplied_witness :
  exists p, created Dist "posts" (mkConfig (Some 5000) None) = Some p /\
            _maxInterval (run Dist [SetConfig (mkConfig (Some 6000) None); Start true] p)
            = 300000.
Proof.
  apply (dist_maxInterval_never_supplied "posts" (mkConfig (Some 5000) None)
           [SetConfig (mkConfig (Some 6000) None); Start true]).
  - reflexivity.
  - repeat constructor.
Defined.

(** In both builds the interval defaults to 8000. *)
Lemma interval_never_supplied (b : Build) (name : string) (c : IRxPollerConfig)
    (es : list Event) :
  interval c = None -> Forall leaves_interval es ->
  exists p, created b name c = Some p /\ _interval (run b es p) = 8000.
Proof.
  intros Hc Hes. rewrite created_eq. eexists. split; [reflexivity|].
  assert (Hp : _interval (named b name (configured c (fresh_instance b))) = 8000).
  { destruct b; simpl; by rewrite Hc. }
  rewrite run_keeps_interval; [done|lia|done].
Qed.

Lemma interval_never_supplied_witness :
  exists p, created Ts "posts" (mkConfig None (Some 40000)) = Some p /\
            _interval (run Ts [SetConfig (mkConfig None (Some 50000)); Start false] p)
            = 8000.
Proof.
  apply (interval_never_supplied Ts "posts" (mkConfig None (Some 40000))
           [SetConfig (mkConfig None (Some 50000)); Start false]).
  - reflexivity.
  - repeat constructor.
Defined.

(** After any [setConfig] both stored values are non-zero. *)
Lemma step_SetConfig_nonzero b c p :
  _interval (step b p (SetConfig c)) <> 0 /\
  _maxInterval (step b p (SetConfig c)) <> 0.
Proof.
  simpl. rewrite !onNext_eq. simpl. split; by apply js_or_nonzero.
Qed.

Lemma step_SetConfig_takes b c p :
  (forall v, interval c = Some v -> v <> 0 ->
             _interval (step b p (SetConfig c)) = v) /\
  (forall v, maxInterval c = Some v -> v <> 0 ->
             _maxInterval (step b p (SetConfig c)) = v).
Proof.
  simpl. rewrite !onNext_eq. simpl.
  split; intros v -> Hv; by apply js_or_takes.
Qed.

(** C8: after [setConfig c1], whatever happens in between, a later
    [setConfig c2] that supplies only one of the two fields leaves the
    other at the value [c1] stored, which is the value [c1] supplied when
    it supplied one. *)
Theorem partial_setConfig_keeps_other (b : Build) (p : RxPoller)
    (c1 c2 : IRxPollerConfig) (es : list Event) :
  let p1 := step b p (SetConfig c1) in
  let p2 := step b (run b es p1) (SetConfig c2) in
  (maxInterval c2 = None -> Forall leaves_maxInterval es ->
     _maxInterval p2 = _maxInterval p1 /\
     forall v, maxInterval c1 = Some v -> v <> 0 -> _maxInterval p2 = v) /\
  (interval c2 = None -> Forall leaves_interval es ->
     _interval p2 = _interval p1 /\
     forall v, interval c1 = Some v -> v <> 0 -> _interval p2 = v).
Proof.
  intros p1 p2.
  destruct (step_SetConfig_nonzero b c1 p) as [Hi Hm].
  destruct (step_SetConfig_takes b c1 p) as [Ti Tm].
  split; intros Hc2 Hes.
  - assert (E : _maxInterval p2 = _maxInterval p1).
    { unfold p2. rewrite step_keeps_maxInterval.
      - by apply run_keeps_maxInterval.
      - rewrite run_keeps_maxInterval; done.
      - exact Hc2. }
    split; [exact E|]. intros v Hv Hnz. rewrite E. by apply Tm.
  - assert (E : _interval p2 = _interval p1).
    { unfold p2. rewrite step_keeps_interval.
      - by apply run_keeps_interval.
      - rewrite run_keeps_interval; done.
      - exact Hc2. }
    split; [exact E|]. intros v Hv Hnz. rewrite E. by apply Ti.
Qed.

(** [setConfig({interval: 5000, maxInterval: 40000})] followed by
    [setConfig({interval: 6000})]. *)
Lemma partial_setConfig_keeps_other_witness :
  let p := configured (mkConfig None None) (fresh_instance Ts) in
  let p1 := step Ts p (SetConfig (mkConfig (Some 5000) (Some 40000))) in
  let p2 := step Ts (run Ts [] p1) (SetConfig (mkConfig (Some 6000) None)) in
  _maxInterval p2 = 40000.
Proof.
  intros p p1 p2.
  pose proof (partial_setConfig_keeps_other Ts p
                (mkConfig (Some 5000) (Some 40000))
                (mkConfig (Some 6000) None) []) as [Hmax _].
  destruct (Hmax eq_refl (List.Forall_nil _)) as [_ Hv].
  apply (Hv 40000 eq_refl). discriminate.
Defined.

(** ** The registry *)

Lemma new_RxPoller_undefined b name w :
  new_RxPoller b name None w = Thrown TypeError (alloc (fresh_instance b) w).
Proof. reflexivity. Qed.

Lemma new_RxPoller_taken b name c w first :
  getPoller name w = Some first ->
  new_RxPoller b name (Some c) w =
  Thrown DuplicateName
    (store (length (heap w)) (named b name (configured c (fresh_instance b)))
       (alloc (fresh_instance b) w)).
Proof.
  unfold getPoller. intros Htaken. unfold new_RxPoller.
  rewrite configured_eq. unfold setPoller. simpl. rewrite Htaken.
  by destruct b.
Qed.

Lemma heap_alloc_old p w i q :
  heap w !! i = Some q -> heap (alloc p w) !! i = Some q.
Proof. intros Hi. simpl. by apply lookup_app_l_Some. Qed.

Lemma heap_store_new p p' w i q :
  heap w !! i = Some q ->
  heap (store (length (heap w)) p' (alloc p w)) !! i = Some q.
Proof.
  intros Hi. simpl.
  assert (i < length (heap w))%nat by (eapply lookup_lt_Some; eauto).
  rewrite list_lookup_insert_ne by lia. by apply lookup_app_l_Some.
Qed.

(** C10: without a config object the constructor throws at
    [config.interval], before anything is registered; it returns only
    when a config object was passed, and an object with both fields
    absent is enough. *)
Theorem constructor_reads_config (b : Build) (name : string) (w : World) :
  (exists w', new_RxPoller b name None w = Thrown TypeError w' /\
              _pollers w' = _pollers w) /\
  (forall config this w',
     new_RxPoller b name config w = Returned this w' -> config <> None) /\
  (getPoller name w = None ->
     exists this w',
       new_RxPoller b name (Some (mkConfig None None)) w = Returned this w' /\
       getPoller name w' = Some this).
Proof.
  split; [|split].
  - rewrite new_RxPoller_undefined. eauto.
  - intros config this w' Hnew ->. by rewrite new_RxPoller_undefined in Hnew.
  - intros Hfree. rewrite new_RxPoller_free by done.
    do 2 eexists. split; [reflexivity|].
    unfold getPoller. simpl. apply lookup_insert_eq.
Qed.

Lemma constructor_reads_config_witness :
  exists this w',
    new_RxPoller Ts "posts" (Some (mkConfig None None)) empty_world
      = Returned this w' /\
    getPoller "posts" w' = Some this.
Proof.
  apply (constructor_reads_config Ts "posts" empty_world). reflexivity.
Defined.

(** C6: while [name] is registered, [new RxPoller(name, _)] throws, and
    what it leaves behind has the same registry and the same first
    instance. *)
Theorem duplicate_name_throws (b : Build) (name : string)
    (config : option IRxPollerConfig) (w : World) (first : nat) (p : RxPoller) :
  getPoller name w = Some first -> heap w !! first = Some p ->
  exists e w',
    new_RxPoller b name config w = Thrown e w' /\
    (config <> None -> e = DuplicateName) /\
    _pollers w' = _pollers w /\
    getPoller name w' = Some first /\
    heap w' !! first = Some p.
Proof.
  intros Hreg Hfirst. destruct config as [c|].
  - rewrite (new_RxPoller_taken b name c w first Hreg).
    do 2 eexists. split; [reflexivity|].
    split; [done|]. split; [done|]. split; [exact Hreg|].
    by apply heap_store_new.
  - rewrite new_RxPoller_undefined.
    do 2 eexists. split; [reflexivity|].
    split; [done|]. split; [done|]. split; [exact Hreg|].
    by apply heap_alloc_old.
Qed.

Lemma one_poller_created b :
  new_RxPoller b "posts" (Some (mkConfig (Some 5000) None)) empty_world
  = Returned 0 (one_poller b).
Proof. by rewrite new_RxPoller_free. Qed.

Lemma duplicate_name_throws_witness :
  exists e w',
    new_RxPoller Ts "posts" (Some (mkConfig None None)) (one_poller Ts)
      = Thrown e w' /\
    (Some (mkConfig None None) <> None -> e = DuplicateName) /\
    _pollers w' = _pollers (one_poller Ts) /\
    getPoller "posts" w' = Some 0%nat /\
    heap w' !! 0%nat =
      Some (named Ts "posts" (configured (mkConfig (Some 5000) None) (fresh_instance Ts))).
Proof.
  apply (duplicate_name_throws Ts "posts" (Some (mkConfig None None))
           (one_poller Ts) 0).
  - reflexivity.
  - reflexivity.
Defined.

(** ** destroy (compiled build) *)

Lemma removePoller_getPoller name n w :
  getPoller n (removePoller name w) = getPoller n w.
Proof. reflexivity. Qed.

(** [destroy] never changes what [getPoller] answers. *)
Lemma destroy_getPoller this n w :
  getPoller n (destroy this w) = getPoller n w.
Proof. unfold destroy. by destruct (heap w !! this). Qed.

(** [destroy] does stop the instance. *)
Lemma destroy_stops this w p :
  heap w !! this = Some p -> heap (destroy this w) !! this = Some (stop p).
Proof.
  intros Hp. unfold destroy. rewrite Hp. simpl.
  apply list_lookup_insert_eq. by eapply lookup_lt_Some.
Qed.

(** C4, compiled build: after [destroy] the name is still registered:
    [getPoller] still answers the destroyed instance and a new poller of
    that name is refused. *)
Theorem destroy_leaves_name_registered (name : string) (c c' : IRxPollerConfig) :
  exists this w,
    new_RxPoller Dist name (Some c) empty_world = Returned this w /\
    getPoller name (destroy this w) = Some this /\
    exists w',
      new_RxPoller Dist name (Some c') (destroy this w) = Thrown DuplicateName w'.
Proof.
  rewrite new_RxPoller_free by apply lookup_empty.
  do 2 eexists. split; [reflexivity|].
  assert (Hreg : forall w0 : World,
            getPoller name w0 = Some 0%nat ->
            getPoller name (destroy 0 w0) = Some 0%nat)
    by (intros w0 H0; by rewrite destroy_getPoller).
  split.
  - apply Hreg. unfold getPoller. simpl. apply lookup_insert_eq.
  - eexists. apply new_RxPoller_taken with (first := 0%nat).
    apply Hreg. unfold getPoller. simpl. apply lookup_insert_eq.
Qed.

(** ** Settlements *)

Lemma on_success_errorCount k v p : _errorCount (on_success k v p) = 0.
Proof.
  unfold on_success. by rewrite subscribe_computedInterval_eq, onNext_eq.
Qed.

Lemma on_success_trace k v p :
  trace (on_success k v p) =
  trace p ++ map (fun cb => Delivered cb v (clock p)) (subscribers p).
Proof.
  unfold on_success. by rewrite subscribe_computedInterval_eq, onNext_eq.
Qed.

Lemma on_failure_errorCount k p :
  _errorCount (on_failure k p) = _errorCount p + 1.
Proof.
  unfold on_failure. by rewrite subscribe_computedInterval_eq, onNext_eq.
Qed.

Lemma on_failure_trace k p : trace (on_failure k p) = trace p.
Proof.
  unfold on_failure. by rewrite subscribe_computedInterval_eq, onNext_eq.
Qed.

Lemma on_success_conn k v p :
  conn (on_success k v p) = Some (mkConn k (Waiting Repeat)).
Proof. reflexivity. Qed.

Lemma on_failure_conn k p :
  conn (on_failure k p) = Some (mkConn k (Waiting Retry)).
Proof. reflexivity. Qed.

(** The timer a settlement arms: the newest one, with the delay
    computed from the stored interval, the new error count and the
    stored maximum. *)
Lemma on_success_timer k v p :
  exists ts,
    timers (on_success k v p) =
    ts ++ [timer (clock p)
             (computedInterval (_interval p) 0 (_maxInterval p)) (TLoop Repeat)].
Proof.
  unfold on_success. rewrite subscribe_computedInterval_eq, onNext_eq.
  simpl. eauto.
Qed.

Lemma on_failure_timer k p :
  exists ts,
    timers (on_failure k p) =
    ts ++ [timer (clock p)
             (computedInterval (_interval p) (_errorCount p + 1) (_maxInterval p))
             (TLoop Retry)].
Proof.
  unfold on_failure. rewrite subscribe_computedInterval_eq, onNext_eq.
  simpl. rewrite filter_app. rewrite filter_cons_True by done.
  rewrite filter_nil. eauto.
Qed.

(** C7: when the pending invocation settles, a success sets the error
    count to 0 and hands the value to every subscriber; a failure adds 1
    to the error count and hands nothing to anyone. *)
Theorem settlement_counts_errors (p : RxPoller) (k i : nat) (o : Settlement) :
  conn p = Some (mkConn k (Invoking i)) ->
  match o with
  | Resolved v =>
      _errorCount (settle i o p) = 0 /\
      trace (settle i o p) =
        trace p ++ map (fun cb => Delivered cb v (clock p)) (subscribers p)
  | Rejected _ =>
      _errorCount (settle i o p) = _errorCount p + 1 /\
      trace (settle i o p) = trace p
  end.
Proof.
  intros Hc. unfold settle. rewrite Hc, Nat.eqb_refl. destruct o as [v|e].
  - split; [apply on_success_errorCount | apply on_success_trace].
  - split; [apply on_failure_errorCount | apply on_failure_trace].
Qed.

Lemma settlement_counts_errors_witness :
  _errorCount (settle 2 (Resolved 42%nat) pending_poller) = 0 /\
  trace (settle 2 (Resolved 42%nat) pending_poller) =
    trace pending_poller ++
    map (fun cb => Delivered cb 42%nat (clock pending_poller))
      (subscribers pending_poller).
Proof.
  apply (settlement_counts_errors pending_poller 0 2 (Resolved 42%nat)).
  reflexivity.
Defined.

(** An error raised by the subscription itself counts like a rejection. *)
Lemma invoke_without_promise k p :
  (forall f, _action p <> Some (CallsFn f)) ->
  invoke k p = on_failure k p.
Proof.
  intros Hn. unfold invoke. destruct (_action p) as [[f|f]|]; try done.
  by destruct (Hn f).
Qed.

(** The zip at work: the subscription of the first cycle is still
    there after the second success, with the second error count queued;
    a [setConfig] during the wait completes its triple, and it arms a
    timer of its own, due before the one the second cycle armed. *)
Lemma setConfig_while_waiting_arms_timer (f : Fn) (v : Value) :
  exists p, created Dist "posts" (mkConfig (Some 1000) (Some 10000)) = Some p /\
    let waiting :=
      run Dist [SetAction f; Start true; Fire; Settle 1 (Resolved v);
                Elapse 1000; Fire; Settle 2 (Resolved v); Elapse 100] p in
    timers waiting = [mkTimer 2000 (TLoop Repeat)] /\
    timers (step Dist waiting (SetConfig (mkConfig (Some 50) None)))
      = [mkTimer 2000 (TLoop Repeat); mkTimer 1150 (TLoop Repeat)].
Proof.
  rewrite created_eq. eexists. split; [reflexivity|].
  cbv zeta. by split.
Qed.

(** ** Invocations of the action *)

Lemma invocations_app p tr :
  omap invocation_of (trace p ++ tr) = invocations p ++ omap invocation_of tr.
Proof. apply omap_app. Qed.

Lemma deliveries_no_invocation v (t : Z) (cbs : list Callback) :
  omap invocation_of (map (fun cb => Delivered cb v t) cbs) = [].
Proof. induction cbs as [|cb cbs IH]; [done|]. simpl. exact IH. Qed.

Lemma on_success_invocations k v p :
  invocations (on_success k v p) = invocations p.
Proof.
  unfold invocations at 1. rewrite on_success_trace, invocations_app.
  rewrite deliveries_no_invocation. apply app_nil_r.
Qed.

Lemma on_failure_invocations k p :
  invocations (on_failure k p) = invocations p.
Proof. unfold invocations. by rewrite on_failure_trace. Qed.

Lemma settle_invocations i o p : invocations (settle i o p) = invocations p.
Proof.
  unfold settle. destruct (conn p) as [[k [j|c]]|]; try done.
  destruct (i =? j)%nat; [|done].
  destruct o; [apply on_success_invocations | apply on_failure_invocations].
Qed.

Lemma stop_trace p : trace (stop p) = trace p.
Proof.
  unfold stop. destruct (_connection p); [done|].
  destruct (conn p) as [c|]; [|done]. by destruct (k =? cid c)%nat.
Qed.

(** In the compiled build the loop calls the function that [setAction]
    installed last. *)
Lemma dist_invokes_installed k f p :
  trace (invoke k (setAction Dist f p)) =
    trace p ++ [Invoked f (next_id p) (clock p)] /\
  conn (invoke k (setAction Dist f p)) = Some (mkConn k (Invoking (next_id p))).
Proof. by split. Qed.

(** While that call is pending no timer starts another one. *)
Lemma pending_invocation_blocks_timers k i c p :
  conn p = Some (mkConn k (Invoking i)) ->
  timer_callback (TLoop c) p = p.
Proof. intros Hc. simpl. by rewrite Hc. Qed.

(** *** The TypeScript source never calls the action *)

Lemma never_calls_frame p q : frame p q -> never_calls p -> never_calls q.
Proof. intros Hf Hn f. rewrite (frame_action _ _ Hf). apply Hn. Qed.

Lemma invoke_invocations k p :
  never_calls p -> invocations (invoke k p) = invocations p.
Proof.
  intros Hn. rewrite invoke_without_promise by done.
  apply on_failure_invocations.
Qed.

Lemma timer_callback_invocations k p :
  never_calls p -> invocations (timer_callback k p) = invocations p.
Proof.
  intros Hn. unfold timer_callback, connect. destruct k as [|c].
  - destruct (conn p) as [c|]; [done|].
    unfold invocations. simpl. fold (invocations (invoke (next_id p) (set_next_id (S (next_id p)) p))).
    by rewrite invoke_invocations.
  - destruct (conn p) as [[k [j|c']]|]; try done.
    destruct (chain_eqb c c'); [|done]. by apply invoke_invocations.
Qed.

Lemma fire_invocations p :
  never_calls p -> invocations (fire p) = invocations p.
Proof.
  intros Hn. unfold fire.
  destruct (extract_min (timers p)) as [[t rest]|]; [|done].
  destruct (due t <=? clock p); [|done].
  by rewrite timer_callback_invocations.
Qed.

Lemma step_ts_never_calls p e : never_calls p -> never_calls (step Ts p e).
Proof.
  intros Hn. destruct e as [f| |c|fn|cb|dt| |i o]; simpl.
  - eapply never_calls_frame; [apply start_frame|done].
  - eapply never_calls_frame; [apply stop_frame|done].
  - intros f. rewrite !onNext_eq. apply Hn.
  - intros f. discriminate.
  - exact Hn.
  - exact Hn.
  - eapply never_calls_frame; [apply fire_frame|done].
  - eapply never_calls_frame; [apply settle_frame|done].
Qed.

Lemma step_ts_invocations p e :
  never_calls p -> invocations (step Ts p e) = invocations p.
Proof.
  intros Hn. destruct e as [f| |c|fn|cb|dt| |i o]; simpl; try done.
  - unfold invocations. by rewrite stop_trace.
  - unfold invocations. by rewrite !onNext_eq.
  - by apply fire_invocations.
  - apply settle_invocations.
Qed.

Lemma run_ts_invocations es : forall p,
  never_calls p -> invocations (run Ts es p) = invocations p.
Proof.
  induction es as [|e es IH]; intros p Hn; [done|].
  rewrite run_cons, IH by (by apply step_ts_never_calls).
  by apply step_ts_invocations.
Qed.

(** C2, TypeScript source: whatever is done with a poller, whichever
    functions are handed to [setAction], no function is ever called. *)
Theorem ts_never_invokes_action (name : string) (c : IRxPollerConfig)
    (es : list Event) :
  exists p, created Ts name c = Some p /\ invocations (run Ts es p) = [].
Proof.
  rewrite created_eq. eexists. split; [reflexivity|].
  rewrite run_ts_invocations; [done|]. intros f. discriminate.
Qed.

(** What happens instead: each cycle fails at once and backs off. *)
Lemma ts_cycle_fails (f : Fn) :
  exists p, created Ts "posts" (mkConfig (Some 1000) (Some 10000)) = Some p /\
    let q := run Ts [SetAction f; Start true; Fire] p in
    trace q = [] /\ _errorCount q = 1 /\
    timers q = [mkTimer 2000 (TLoop Retry)].
Proof.
  rewrite created_eq. eexists. split; [reflexivity|].
  cbv zeta. by repeat split.
Qed.

(** ** Symbolic runs *)

Ltac decide_leb :=
  repeat match goal with
  | |- context [?a <=? ?b] =>
      first [ replace (a <=? b) with true by (symmetry; apply Z.leb_le; lia)
            | replace (a <=? b) with false by (symmetry; apply Z.leb_gt; lia) ]
  end.

Ltac eval_delays :=
  repeat match goal with
  | |- context [computedInterval ?a ?b ?c] =>
      let r := eval vm_compute in (computedInterval a b c) in
      change (computedInterval a b c) with r
  end.

(** One event of a run, with the clock arithmetic left to [lia]. *)
Ltac run_step :=
  rewrite run_cons;
  match goal with
  | |- context [run ?b ?es (step ?b ?p ?e)] =>
      let r := eval cbv -[Z.add Z.max Z.leb Z.mul Z.pow Z.min
                          computedInterval js_or prop_or]
                 in (step b p e) in
      change (step b p e) with r
  end;
  eval_delays; decide_leb; cbv iota.

Lemma run_app b es1 es2 p : run b (es1 ++ es2) p = run b es2 (run b es1 p).
Proof. apply fold_left_app. Qed.

(** ** stop *)

(** C3, the case the code misses: [stop()] called while the timer of
    [start] is still pending disposes nothing, and when the timer fires
    afterwards the poller connects and calls the action. *)
Theorem stop_misses_pending_start (name : string) (c : IRxPollerConfig)
    (f : Fn) (forceStart : bool) :
  exists p, created Dist name c = Some p /\
    let d := Z.max 0 (if forceStart then 0 else _interval p) in
    let stopped := run Dist [SetAction f; Start forceStart; Stop] p in
    invocations stopped = [] /\
    timers stopped = [mkTimer d TStart] /\
    invocations (run Dist [Elapse d; Fire] stopped) = [(f, d)].
Proof.
  rewrite created_eq. eexists. split; [reflexivity|].
  destruct c as [ci cm]. cbv zeta. unfold named, configured.
  split; [reflexivity|]. split.
  - destruct forceStart; reflexivity.
  - destruct forceStart.
    + reflexivity.
    + rewrite <- run_app. simpl app. do 5 run_step.
      cbv -[Z.add Z.max js_or prop_or]. do 2 f_equal. lia.
Qed.

(** *** What stop does stop *)

Lemma extract_min_Forall (P : Timer -> Prop) ts : forall t rest,
  extract_min ts = Some (t, rest) -> Forall P ts -> P t /\ Forall P rest.
Proof.
  induction ts as [|t0 ts IH]; intros t rest Hex Hall; [discriminate|].
  inversion Hall as [|? ? Ht0 Hts]; subst. simpl in Hex.
  destruct (extract_min ts) as [[m rest']|].
  - destruct (IH m rest' eq_refl Hts) as [Hm Hrest].
    destruct (due t0 <=? due m); injection Hex as <- <-; auto.
  - injection Hex as <- <-. auto.
Qed.

Lemma filter_is_start ts :
  Forall (fun t => tkind t = TStart) (filter is_start ts).
Proof.
  induction ts as [|t ts IH]; [constructor|].
  destruct (tkind t) eqn:Hk.
  - rewrite filter_cons_True by (unfold is_start; rewrite Hk; simpl; tauto).
    constructor; [exact Hk|exact IH].
  - rewrite filter_cons_False by (unfold is_start; rewrite Hk; simpl; tauto).
    exact IH.
Qed.

Lemma filter_is_start_none ts :
  Forall (fun t => tkind t <> TStart) ts -> filter is_start ts = [].
Proof.
  induction 1 as [|t ts Ht _ IH]; [done|].
  destruct (tkind t) eqn:Hk; [done|].
  rewrite filter_cons_False by (unfold is_start; rewrite Hk; simpl; tauto).
  exact IH.
Qed.

Lemma onNext_idle s v p :
  zips p = [] ->
  timers (onNext s v p) = timers p /\ zips (onNext s v p) = [].
Proof.
  intros Hz. rewrite onNext_eq. simpl.
  replace (zips (set_value s v p)) with (zips p) by (by destruct s).
  rewrite Hz. simpl. split; [apply app_nil_r|].
  replace (zips p) with (@nil Zip). done.
Qed.

Lemma onNext_links s v p :
  conn (onNext s v p) = conn p /\ _connection (onNext s v p) = _connection p /\
  trace (onNext s v p) = trace p.
Proof. rewrite onNext_eq. by destruct s. Qed.

Lemma onNext_well_linked s v p : well_linked p -> well_linked (onNext s v p).
Proof.
  unfold well_linked. destruct (onNext_links s v p) as (-> & -> & _).
  destruct (conn p); [done|]. intros [Ht Hz].
  destruct (onNext_idle s v p Hz) as [-> ->]. done.
Qed.

Lemma on_success_connection k v p :
  _connection (on_success k v p) = _connection p.
Proof.
  unfold on_success. by rewrite subscribe_computedInterval_eq, onNext_eq.
Qed.

Lemma on_failure_connection k p : _connection (on_failure k p) = _connection p.
Proof.
  unfold on_failure. by rewrite subscribe_computedInterval_eq, onNext_eq.
Qed.

Lemma invoke_links k p :
  _connection (invoke k p) = _connection p /\
  exists ph, conn (invoke k p) = Some (mkConn k ph).
Proof.
  unfold invoke. destruct (_action p) as [[f|f]|].
  - split; [apply on_failure_connection|]. eauto using on_failure_conn.
  - split; [done|]. simpl. eauto.
  - split; [apply on_failure_connection|]. eauto using on_failure_conn.
Qed.

Lemma timer_callback_well_linked k p :
  well_linked p -> well_linked (timer_callback k p).
Proof.
  unfold well_linked, timer_callback, connect. destruct k as [|c].
  - destruct (conn p) as [c|] eqn:Hc; simpl; [by rewrite Hc|].
    intros _.
    destruct (invoke_links (next_id p) (set_next_id (S (next_id p)) p))
      as [_ [ph ->]]. done.
  - destruct (conn p) as [[k [j|c']]|] eqn:Hc; simpl; rewrite ?Hc; try done.
    destruct (chain_eqb c c'); [|by rewrite Hc].
    destruct (invoke_links k p) as [-> [ph ->]]. done.
Qed.

Lemma step_well_linked b p e : well_linked p -> well_linked (step b p e).
Proof.
  intros Hp. destruct e as [f| |c|fn|cb|dt| |i o]; simpl.
  - unfold well_linked in *. simpl. destruct (conn p); [done|].
    destruct Hp as [Ht Hz]. split; [|done].
    apply Forall_app. split; [done|]. by constructor.
  - unfold stop. destruct (_connection p) as [|k] eqn:Hk; [done|].
    destruct (conn p) as [c|] eqn:Hc; [|done].
    destruct (k =? cid c)%nat; [|done].
    unfold well_linked. simpl. split; [apply filter_is_start|done].
  - by do 2 apply onNext_well_linked.
  - by destruct b.
  - done.
  - done.
  - unfold fire. destruct (extract_min (timers p)) as [[t rest]|] eqn:Hex; [|done].
    destruct (due t <=? clock p); [|done].
    apply timer_callback_well_linked.
    unfold well_linked in *. simpl. destruct (conn p); [done|].
    destruct Hp as [Ht Hz]. split; [|done].
    by destruct (extract_min_Forall _ _ _ _ Hex Ht).
  - unfold settle. destruct (conn p) as [[k [j|c]]|] eqn:Hc; try done.
    destruct (i =? j)%nat; [|done].
    unfold well_linked in *. rewrite Hc in Hp. simpl in Hp.
    destruct o.
    + by rewrite on_success_conn, on_success_connection.
    + by rewrite on_failure_conn, on_failure_connection.
Qed.

Lemma run_well_linked b es : forall p, well_linked p -> well_linked (run b es p).
Proof.
  induction es as [|e es IH]; intros p Hp; [done|].
  rewrite run_cons. by apply IH, step_well_linked.
Qed.

Lemma created_well_linked b name c p :
  created b name c = Some p -> well_linked p.
Proof.
  rewrite created_eq. intros [= <-]. unfold well_linked.
  by destruct b.
Qed.

Lemma stop_quiet p :
  well_linked p -> Forall (fun t => tkind t <> TStart) (timers p) ->
  quiet (stop p).
Proof.
  unfold well_linked, stop, quiet. intros Hl Hns.
  destruct (conn p) as [c|] eqn:Hc.
  - rewrite Hl, Nat.eqb_refl. simpl. by rewrite filter_is_start_none.
  - destruct Hl as [Hs Hz].
    assert (timers p = []) as Ht.
    { destruct (timers p) as [|t ts]; [done|].
      inversion Hs; inversion Hns; subst. done. }
    by destruct (_connection p).
Qed.

Lemma stop_errorCount p : _errorCount (stop p) = _errorCount p.
Proof.
  unfold stop. destruct (_connection p); [done|].
  destruct (conn p) as [c|]; [|done]. by destruct (k =? cid c)%nat.
Qed.

Lemma step_quiet b p e :
  quiet p -> not_start e ->
  quiet (step b p e) /\ trace (step b p e) = trace p /\
  _errorCount (step b p e) = _errorCount p.
Proof.
  intros (Hc & Ht & Hz) He. destruct e as [f| |c|fn|cb|dt| |i o]; simpl.
  - done.
  - unfold stop. rewrite Hc. by destruct (_connection p).
  - set (p1 := onNext SInterval _ p).
    destruct (onNext_idle SInterval (js_or (prop_or (interval c) (_interval p)) 8000) p Hz)
      as [Ht1 Hz1]. fold p1 in Ht1, Hz1.
    destruct (onNext_idle SMaxInterval
                (js_or (prop_or (maxInterval c) (_maxInterval p1)) 300000) p1 Hz1)
      as [Ht2 Hz2].
    unfold quiet. rewrite Ht2, Ht1, Hz2.
    unfold p1. rewrite !onNext_eq. simpl. done.
  - by destruct b.
  - done.
  - done.
  - unfold fire. by rewrite Ht.
  - unfold settle. by rewrite Hc.
Qed.

Lemma run_quiet b es : forall p,
  quiet p -> Forall not_start es ->
  quiet (run b es p) /\ trace (run b es p) = trace p /\
  _errorCount (run b es p) = _errorCount p.
Proof.
  induction es as [|e es IH]; intros p Hq Hes; [done|].
  inversion Hes as [|? ? He Hes']; subst. rewrite run_cons.
  destruct (step_quiet b p e Hq He) as (Hq' & Htr & Hec).
  destruct (IH _ Hq' Hes') as (Hq'' & -> & ->). done.
Qed.

(** Once the timer of every [start] has fired, [stop] is final: until
    the next [start], whatever timers fire and whatever promises settle,
    the trace, the error count and the empty timer queue stay as [stop]
    left them. *)
Theorem stop_ends_polling (b : Build) (name : string) (c : IRxPollerConfig)
    (p : RxPoller) (es es' : list Event) :
  created b name c = Some p ->
  Forall (fun t => tkind t <> TStart) (timers (run b es p)) ->
  Forall not_start es' ->
  let q := run b es p in
  let r := run b es' (stop q) in
  trace r = trace q /\ _errorCount r = _errorCount q /\
  timers r = [] /\ conn r = None.
Proof.
  intros Hp Hns Hes' q r.
  assert (Hq : quiet (stop q)).
  { apply stop_quiet; [|done].
    by eapply run_well_linked, created_well_linked. }
  destruct (run_quiet b es' (stop q) Hq Hes') as ((Hc & Ht & _) & Htr & Hec).
  unfold r. rewrite Htr, Hec, stop_trace, stop_errorCount. done.
Qed.

(** [start(true)], the first call is pending, [stop()]; then the call
    resolves late and the scheduler gets two more turns. *)
Lemma stop_ends_polling_witness :
  let q := run Dist [SetAction 7%nat; Subscribe 3%nat; Start true; Fire]
             (named Dist "posts" (configured (mkConfig None None) (fresh_instance Dist))) in
  let r := run Dist [Elapse 50; Settle 1 (Resolved 42%nat); Fire; Elapse 8000; Fire]
             (stop q) in
  trace r = trace q /\ _errorCount r = _errorCount q /\
  timers r = [] /\ conn r = None.
Proof.
  apply (stop_ends_polling Dist "posts" (mkConfig None None)
           (named Dist "posts" (configured (mkConfig None None) (fresh_instance Dist)))
           [SetAction 7%nat; Subscribe 3%nat; Start true; Fire]
           [Elapse 50; Settle 1 (Resolved 42%nat); Fire; Elapse 8000; Fire]).
  - apply created_eq.
  - vm_compute. constructor.
  - repeat constructor.
Defined.

(** ** A run with two failures and a success *)

Lemma setAction_dist f p : setAction Dist f p = set_action (Some (CallsFn f)) p.
Proof. reflexivity. Qed.

(** Two traces are the same up to clock arithmetic. *)
Ltac same_trace :=
  repeat match goal with
  | |- _ :: _ = _ :: _ => f_equal
  | |- Invoked _ _ _ = Invoked _ _ _ => f_equal
  | |- Delivered _ _ _ = Delivered _ _ _ => f_equal
  end; lia.

Lemma backoff_run (b : Build) (f : Fn) (cb : Callback) (e1 e2 v : Value)
    (l1 l2 l3 : Z) :
  0 <= l1 -> 0 <= l2 -> 0 <= l3 ->
  trace (run b (backoff_script cb e1 e2 v l1 l2 l3)
           (set_action (Some (CallsFn f))
              (named b "posts"
                 (configured (mkConfig (Some 1000) (Some 10000))
                    (fresh_instance b)))))
  = backoff_trace f cb v l1 l2 l3.
Proof.
  intros H1 H2 H3. unfold backoff_script, backoff_trace.
  destruct b;
    match goal with
    | |- context [run _ _ ?p] =>
        let r := eval vm_compute in p in change p with r
    end;
    do 24 run_step; change (run _ [] ?p) with p;
    cbv [trace]; same_trace.
Qed.

(** C9: interval 1000, maximum 10000, [start(false)], an action that
    fails twice and then succeeds.  The action is called 1000 ms after
    [start], 2000 ms after its first failure, 4000 ms after its second
    failure and 1000 ms after its success, and not one millisecond
    earlier. *)
Theorem backoff_delays (b : Build) (f : Fn) (cb : Callback) (e1 e2 v : Value)
    (l1 l2 l3 : Z) :
  0 <= l1 -> 0 <= l2 -> 0 <= l3 ->
  (exists p,
     created b "posts" (mkConfig (Some 1000) (Some 10000)) = Some p /\
     trace (run b (backoff_script cb e1 e2 v l1 l2 l3)
              (set_action (Some (CallsFn f)) p))
     = backoff_trace f cb v l1 l2 l3) /\
  (exists p,
     created Dist "posts" (mkConfig (Some 1000) (Some 10000)) = Some p /\
     trace (run Dist (SetAction f :: backoff_script cb e1 e2 v l1 l2 l3) p)
     = backoff_trace f cb v l1 l2 l3).
Proof.
  intros H1 H2 H3. split.
  - rewrite created_eq. eexists. split; [reflexivity|]. by apply backoff_run.
  - rewrite created_eq. eexists. split; [reflexivity|].
    rewrite run_cons. change (step Dist ?p (SetAction f)) with (setAction Dist f p).
    rewrite setAction_dist. by apply backoff_run.
Qed.

Lemma backoff_delays_witness :
  (exists p,
     created Dist "posts" (mkConfig (Some 1000) (Some 10000)) = Some p /\
     trace (run Dist (backoff_script 3%nat 0%nat 0%nat 42%nat 30 40 50)
              (set_action (Some (CallsFn 7%nat)) p))
     = backoff_trace 7%nat 3%nat 42%nat 30 40 50) /\
  (exists p,
     created Dist "posts" (mkConfig (Some 1000) (Some 10000)) = Some p /\
     trace (run Dist (SetAction 7%nat :: backoff_script 3%nat 0%nat 0%nat 42%nat 30 40 50) p)
     = backoff_trace 7%nat 3%nat 42%nat 30 40 50).
Proof.
  apply (backoff_delays Dist 7%nat 3%nat 0%nat 0%nat 42%nat 30 40 50); lia.
Defined.

(** ** The registry under programs *)

Lemma wrun_cons b op ops w : wrun b (op :: ops) w = wrun b ops (wstep b w op).
Proof. reflexivity. Qed.

Lemma call_getPoller b this e n w : getPoller n (call b this e w) = getPoller n w.
Proof. unfold call. by destruct (heap w !! this). Qed.

(** What a constructor call does to one name of the registry. *)
Lemma new_getPoller b name config w n :
  getPoller n (world_of (new_RxPoller b name config w)) = getPoller n w \/
  (n = name /\ getPoller n w = None /\ config <> None /\
   getPoller n (world_of (new_RxPoller b name config w)) = Some (length (heap w))).
Proof.
  destruct config as [c|]; [|by left].
  destruct (getPoller name w) as [first|] eqn:Hname.
  - left. by rewrite (new_RxPoller_taken b name c w first Hname).
  - rewrite (new_RxPoller_free b name c w Hname). unfold getPoller at 1 4. simpl.
    destruct (decide (name = n)) as [<-|Hne].
    + right. rewrite lookup_insert_eq. done.
    + left. by rewrite lookup_insert_ne.
Qed.

Lemma wstep_keeps_registered b w op n i :
  getPoller n w = Some i -> getPoller n (wstep b w op) = Some i.
Proof.
  intros Hn. destruct op as [name config|this|this e]; simpl.
  - destruct (new_getPoller b name config w n) as [->|(_ & Hnone & _)]; [done|].
    congruence.
  - destruct b; [done|]. by rewrite destroy_getPoller.
  - by rewrite call_getPoller.
Qed.


(** A name, once registered, answers the same instance for ever:
    nothing a program can do, [destroy] included, unregisters or rebinds
    it. *)
Theorem registered_name_is_permanent (b : Build) (ops : list Op) (w : World)
    (n : string) (i : nat) :
  getPoller n w = Some i -> getPoller n (wrun b ops w) = Some i.
Proof.
  revert w. induction ops as [|op ops IH]; intros w Hn; [done|].
  rewrite wrun_cons. by apply IH, wstep_keeps_registered.
Qed.

Lemma registered_name_is_permanent_witness :
  getPoller "posts"
    (wrun Dist [Call 0 (Start true); Destroy 0; New "posts" (Some (mkConfig None None));
                New "users" (Some (mkConfig None None))]
       (one_poller Dist))
  = Some 0%nat.
Proof.
  apply (registered_name_is_permanent Dist
           [Call 0 (Start true); Destroy 0; New "posts" (Some (mkConfig None None));
            New "users" (Some (mkConfig None None))]
           (one_poller Dist) "posts" 0).
  reflexivity.
Defined.



(** A constructor call that returns was given a config object and a
    free name; it returns a new instance, configured from the initial
    values, registers it under the name, and leaves every other name and
    every older instance as they were. *)
Theorem constructor_registers (b : Build) (name : string)
    (config : option IRxPollerConfig) (w w' : World) (this : nat) :
  new_RxPoller b name config w = Returned this w' ->
  exists c,
    config = Some c /\ getPoller name w = None /\ this = length (heap w) /\
    getPoller name w' = Some this /\
    heap w' !! this = Some (named b name (configured c (fresh_instance b))) /\
    (forall n, n <> name -> getPoller n w' = getPoller n w) /\
    (forall i p, heap w !! i = Some p -> heap w' !! i = Some p).
Proof.
  destruct config as [c|]; [|by rewrite new_RxPoller_undefined].
  destruct (getPoller name w) as [first|] eqn:Hname.
  - by rewrite (new_RxPoller_taken b name c w first Hname).
  - rewrite (new_RxPoller_free b name c w Hname). intros [= <- <-].
    exists c. split; [done|]. split; [done|]. split; [done|].
    unfold getPoller. simpl. split; [apply lookup_insert_eq|].
    split; [apply list_lookup_middle; done|].
    split.
    + intros n Hn. by apply lookup_insert_ne.
    + intros i p Hi. by apply lookup_app_l_Some.
Qed.

Lemma constructor_registers_witness :
  exists c,
    Some (mkConfig (Some 5000) None) = Some c /\
    getPoller "posts" empty_world = None /\ 0%nat = length (heap empty_world) /\
    getPoller "posts" (one_poller Dist) = Some 0%nat /\
    heap (one_poller Dist) !! 0%nat
      = Some (named Dist "posts" (configured c (fresh_instance Dist))) /\
    (forall n, n <> "posts" -> getPoller n (one_poller Dist) = getPoller n empty_world) /\
    (forall i p, heap empty_world !! i = Some p -> heap (one_poller Dist) !! i = Some p).
Proof.
  apply (constructor_registers Dist "posts" (Some (mkConfig (Some 5000) None))
           empty_world (one_poller Dist) 0).
  apply one_poller_created.
Defined.







(** ** Invariants of a poller *)

Lemma run_snoc b es e p : run b (es ++ [e]) p = step b (run b es p) e.
Proof. by rewrite run_app. Qed.

Lemma invoke_errorCount k p :
  _errorCount (invoke k p) = _errorCount p \/
  _errorCount (invoke k p) = _errorCount p + 1.
Proof.
  unfold invoke. destruct (_action p) as [[f|f]|].
  - right. apply on_failure_errorCount.
  - by left.
  - right. apply on_failure_errorCount.
Qed.

Lemma timer_callback_errorCount k p :
  _errorCount (timer_callback k p) = _errorCount p \/
  _errorCount (timer_callback k p) = _errorCount p + 1.
Proof.
  unfold timer_callback, connect. destruct k as [|c].
  - destruct (conn p) as [c|]; [by left|].
    destruct (invoke_errorCount (next_id p) (set_next_id (S (next_id p)) p))
      as [E|E]; [left|right]; exact E.
  - destruct (conn p) as [[k [j|c']]|]; try (by left).
    destruct (chain_eqb c c'); [|by left]. apply invoke_errorCount.
Qed.

Lemma step_errorCount_nonneg b p e :
  0 <= _errorCount p -> 0 <= _errorCount (step b p e).
Proof.
  intros Hp. destruct e as [f| |c|fn|cb|dt| |i o]; simpl; try done.
  - by rewrite stop_errorCount.
  - by rewrite !onNext_eq.
  - by destruct b.
  - unfold fire. destruct (extract_min (timers p)) as [[t rest]|]; [|done].
    destruct (due t <=? clock p); [|done].
    destruct (timer_callback_errorCount (tkind t) (set_timers rest p)) as [E|E];
      rewrite E; simpl; lia.
  - unfold settle. destruct (conn p) as [[k [j|c]]|]; try done.
    destruct (i =? j)%nat; [|done]. destruct o.
    + by rewrite on_success_errorCount.
    + rewrite on_failure_errorCount. lia.
Qed.

Lemma step_interval_nonzero b p e :
  _interval p <> 0 -> _interval (step b p e) <> 0.
Proof.
  intros Hp. destruct e as [f| |c|fn|cb|dt| |i o];
    try (by rewrite step_keeps_interval).
  apply step_SetConfig_nonzero.
Qed.

Lemma step_maxInterval_nonzero b p e :
  _maxInterval p <> 0 -> _maxInterval (step b p e) <> 0.
Proof.
  intros Hp. destruct e as [f| |c|fn|cb|dt| |i o];
    try (by rewrite step_keeps_maxInterval).
  apply step_SetConfig_nonzero.
Qed.

(** Whatever is done with a poller, its error count is never negative
    and neither its stored interval nor its stored maximum is ever 0:
    [setConfig] takes a 0 for an absent value. *)
Theorem stored_values_stay_sane (b : Build) (name : string)
    (c : IRxPollerConfig) (es : list Event) :
  exists p, created b name c = Some p /\
    0 <= _errorCount (run b es p) /\
    _interval (run b es p) <> 0 /\ _maxInterval (run b es p) <> 0.
Proof.
  rewrite created_eq. eexists. split; [reflexivity|].
  set (p := named b name (configured c (fresh_instance b))).
  assert (H0 : 0 <= _errorCount p /\ _interval p <> 0 /\ _maxInterval p <> 0).
  { unfold p. destruct b; simpl; (split; [done|]);
      split; by apply js_or_nonzero. }
  clearbody p. revert p H0.
  induction es as [|e es IH]; intros p (He & Hi & Hm); [done|].
  rewrite run_cons. apply IH.
  auto using step_errorCount_nonneg, step_interval_nonzero, step_maxInterval_nonzero.
Qed.

(** *** start on a running poller *)

Lemma set_connection_same p : set_connection (_connection p) p = p.
Proof. by destruct p. Qed.

(** When the timer of a [start] fires on a poller that is connected,
    nothing changes: no second loop, no call of the action, no timer. *)
Theorem start_while_connected_changes_nothing (b : Build) (name : string)
    (c : IRxPollerConfig) (p : RxPoller) (es : list Event) (k : Conn) :
  created b name c = Some p ->
  conn (run b es p) = Some k ->
  timer_callback TStart (run b es p) = run b es p.
Proof.
  intros Hp Hk.
  assert (Hl : well_linked (run b es p))
    by (by eapply run_well_linked, created_well_linked).
  unfold well_linked in Hl. rewrite Hk in Hl.
  unfold timer_callback, connect. rewrite Hk, <- Hl.
  apply set_connection_same.
Qed.

Lemma start_while_connected_changes_nothing_witness :
  timer_callback TStart
    (run Dist [SetAction 7%nat; Start true; Fire]
       (named Dist "posts" (configured (mkConfig None None) (fresh_instance Dist))))
  = run Dist [SetAction 7%nat; Start true; Fire]
      (named Dist "posts" (configured (mkConfig None None) (fresh_instance Dist))).
Proof.
  apply (start_while_connected_changes_nothing Dist "posts" (mkConfig None None)
           _ [SetAction 7%nat; Start true; Fire] (mkConn 0 (Invoking 1))).
  - apply created_eq.
  - reflexivity.
Defined.

(** ** Where the entries of the trace come from *)

Lemma invoke_trace k p :
  trace (invoke k p) =
  trace p ++ match _action p with
             | Some (CallsFn f) => [Invoked f (next_id p) (clock p)]
             | _ => []
             end.
Proof.
  unfold invoke. destruct (_action p) as [[f|f]|]; [| done |];
    by rewrite on_failure_trace, app_nil_r.
Qed.

Lemma born_invoke k p :
  exists new, trace (invoke k p) = trace p ++ new /\ Forall (born p Fire) new.
Proof.
  rewrite invoke_trace. eexists. split; [reflexivity|].
  destruct (_action p) as [[f|f]|] eqn:Ha; repeat constructor. exact Ha.
Qed.

Lemma born_timer_callback k p :
  exists new, trace (timer_callback k p) = trace p ++ new /\
              Forall (born p Fire) new.
Proof.
  assert (Hnil : exists new, trace p = trace p ++ new /\ Forall (born p Fire) new)
    by (exists []; by rewrite app_nil_r).
  unfold timer_callback, connect. destruct k as [|c].
  - destruct (conn p) as [c|]; [exact Hnil|].
    exact (born_invoke (next_id p) (set_next_id (S (next_id p)) p)).
  - destruct (conn p) as [[k [j|c']]|]; try exact Hnil.
    destruct (chain_eqb c c'); [apply born_invoke | exact Hnil].
Qed.

(** One event adds to the trace only calls of the function installed at
    that moment, made at a turn of the scheduler, and hand-overs of the
    value that just resolved to the callbacks subscribed at that
    moment. *)
Lemma born_step b p e :
  exists new, trace (step b p e) = trace p ++ new /\ Forall (born p e) new.
Proof.
  assert (Hnil : forall q, trace q = trace p ->
            exists new, trace q = trace p ++ new /\ Forall (born p e) new)
    by (intros q ->; exists []; by rewrite app_nil_r).
  destruct e as [f| |c|fn|cb|dt| |i o]; simpl; try (by apply Hnil).
  - apply Hnil, stop_trace.
  - apply Hnil. by rewrite !onNext_eq.
  - apply Hnil. by destruct b.
  - unfold fire. destruct (extract_min (timers p)) as [[t rest]|]; [|by apply Hnil].
    destruct (due t <=? clock p); [|by apply Hnil].
    exact (born_timer_callback (tkind t) (set_timers rest p)).
  - unfold settle. destruct (conn p) as [[k [j|c]]|]; try (by apply Hnil).
    destruct (i =? j)%nat; [|by apply Hnil]. destruct o as [v|r].
    + rewrite on_success_trace. eexists. split; [reflexivity|].
      apply Forall_forall. intros o Ho. apply list_elem_of_fmap in Ho.
      destruct Ho as (cb & -> & Hcb). simpl. eauto.
    + apply Hnil, on_failure_trace.
Qed.

Lemma born_run b es p o :
  o ∈ trace (run b es p) ->
  o ∈ trace p \/
  exists es1 e es2, es = es1 ++ e :: es2 /\ born (run b es1 p) e o.
Proof.
  induction es as [|e es IH] using rev_ind; [by left|].
  rewrite run_snoc. destruct (born_step b (run b es p) e) as (new & -> & Hnew).
  intros Ho. apply elem_of_app in Ho. destruct Ho as [Ho|Ho].
  - destruct (IH Ho) as [?|(es1 & e' & es2 & -> & Hb)]; [by left|].
    right. exists es1, e', (es2 ++ [e]). split; [|done].
    by rewrite <- app_assoc.
  - right. exists es, e, []. split; [done|].
    rewrite Forall_forall in Hnew. by apply Hnew.
Qed.

Lemma run_clock b es : forall p, clock (run b es p) = elapsed_from (clock p) es.
Proof.
  induction es as [|e es IH]; intros p; [done|].
  rewrite run_cons, IH. unfold elapsed_from. simpl. f_equal.
  destruct e as [f| |c|fn|cb|dt| |i o]; simpl; try reflexivity.
  - apply stop_frame.
  - by rewrite !onNext_eq.
  - by destruct b.
  - apply fire_frame.
  - apply settle_frame.
Qed.

Lemma run_subscribers b es : forall p,
  subscribers (run b es p) = subscribers p ++ subscribed es.
Proof.
  induction es as [|e es IH]; intros p; [by rewrite app_nil_r|].
  rewrite run_cons, IH. unfold subscribed.
  destruct e as [f| |c|fn|cb|dt| |i o]; simpl; try reflexivity.
  - by rewrite (frame_subscribers _ _ (stop_frame p)).
  - by rewrite !onNext_eq.
  - by destruct b.
  - by rewrite <- app_assoc.
  - by rewrite (frame_subscribers _ _ (fire_frame p)).
  - by rewrite (frame_subscribers _ _ (settle_frame i o p)).
Qed.

Lemma run_dist_action es : forall p a,
  _action p = CallsFn <$> a ->
  _action (run Dist es p) = CallsFn <$> latest_from a es.
Proof.
  induction es as [|e es IH]; intros p a Ha; [done|].
  rewrite run_cons. unfold latest_from. simpl. apply IH.
  destruct e as [f| |c|fn|cb|dt| |i o]; simpl; try done.
  - by rewrite (frame_action _ _ (stop_frame p)).
  - by rewrite !onNext_eq.
  - by rewrite (frame_action _ _ (fire_frame p)).
  - by rewrite (frame_action _ _ (settle_frame i o p)).
Qed.

(** Compiled build: every call of the action is a call of the function
    given to the last [setAction] before the turn of the scheduler that
    made the call, not of one installed earlier or when polling
    started. *)
Theorem invocation_calls_latest_action (name : string) (c : IRxPollerConfig)
    (p : RxPoller) (es : list Event) (f : Fn) (i : nat) (t : Z) :
  created Dist name c = Some p ->
  Invoked f i t ∈ trace (run Dist es p) ->
  exists es1 es2,
    es = es1 ++ Fire :: es2 /\ latest_action es1 = Some f /\ t = elapsed es1.
Proof.
  rewrite created_eq. intros [= <-] Ho.
  apply born_run in Ho. destruct Ho as [Ho|(es1 & e & es2 & -> & He & Ha & ->)].
  - simpl in Ho. by apply elem_of_nil in Ho.
  - subst e. exists es1, es2. split; [done|].
    rewrite run_clock. split; [|reflexivity].
    rewrite (run_dist_action es1 _ None) in Ha by reflexivity.
    unfold latest_action. destruct (latest_from None es1); simpl in Ha; congruence.
Qed.

Lemma invocation_calls_latest_action_witness :
  exists es1 es2,
    [SetAction 7%nat; Start false; SetAction 8%nat; Elapse 8000; Fire; SetAction 9%nat]
      = es1 ++ Fire :: es2 /\
    latest_action es1 = Some 8%nat /\ 8000 = elapsed es1.
Proof.
  apply (invocation_calls_latest_action "posts" (mkConfig None None)
           (named Dist "posts" (configured (mkConfig None None) (fresh_instance Dist)))
           [SetAction 7%nat; Start false; SetAction 8%nat; Elapse 8000; Fire;
            SetAction 9%nat]
           8%nat 1%nat 8000).
  - apply created_eq.
  - vm_compute. repeat constructor.
Defined.

(** A subscriber is handed only values that the action resolved with,
    and only those resolved after it subscribed: never a failure, never
    an earlier result. *)
Theorem delivery_follows_subscription (b : Build) (name : string)
    (c : IRxPollerConfig) (p : RxPoller) (es : list Event) (cb : Callback)
    (v : Value) (t : Z) :
  created b name c = Some p ->
  Delivered cb v t ∈ trace (run b es p) ->
  exists es1 es2 i,
    es = es1 ++ Settle i (Resolved v) :: es2 /\
    cb ∈ subscribed es1 /\ t = elapsed es1.
Proof.
  rewrite created_eq. intros [= <-] Ho.
  apply born_run in Ho.
  destruct Ho as [Ho|(es1 & e & es2 & -> & [i ->] & Hcb & ->)].
  - destruct b; simpl in Ho; by apply elem_of_nil in Ho.
  - exists es1, es2, i. split; [done|].
    rewrite run_clock, run_subscribers in *. split.
    + destruct b; exact Hcb.
    + by destruct b.
Qed.

Lemma delivery_follows_subscription_witness :
  exists es1 es2 i,
    [SetAction 7%nat; Subscribe 3%nat; Start true; Fire; Elapse 40;
     Settle 1 (Resolved 42%nat)]
      = es1 ++ Settle i (Resolved 42%nat) :: es2 /\
    3%nat ∈ subscribed es1 /\ 40 = elapsed es1.
Proof.
  apply (delivery_follows_subscription Dist "posts" (mkConfig None None)
           (named Dist "posts" (configured (mkConfig None None) (fresh_instance Dist)))
           [SetAction 7%nat; Subscribe 3%nat; Start true; Fire; Elapse 40;
            Settle 1 (Resolved 42%nat)]
           3%nat 42%nat 40).
  - apply created_eq.
  - vm_compute. repeat constructor.
Defined.

(** *** The TypeScript source delivers nothing *)




(** ** The loop between two setConfig *)

Lemma no_loop_filter ts :
  filter is_loop ts = [] <-> Forall (fun t => tkind t = TStart) ts.
Proof.
  induction ts as [|t ts IH]; [by split|].
  unfold is_loop, is_start in *. destruct (tkind t) eqn:Hk.
  - rewrite filter_cons_False by (rewrite Hk; simpl; tauto).
    rewrite IH. split; [by constructor|]. by inversion 1.
  - rewrite filter_cons_True by (rewrite Hk; simpl; tauto).
    split; [done|]. inversion 1; congruence.
Qed.

Lemma start_timers_survive ts :
  Forall (fun t => tkind t = TStart) ts ->
  filter (fun t => negb (timer_in_repeat t)) ts = ts.
Proof.
  induction 1 as [|t ts Ht _ IH]; [done|].
  rewrite filter_cons_True by (unfold timer_in_repeat; by rewrite Ht).
  by rewrite IH.
Qed.

Lemma extract_min_split ts : forall t rest,
  extract_min ts = Some (t, rest) ->
  exists l1 l2, ts = l1 ++ t :: l2 /\ rest = l1 ++ l2.
Proof.
  induction ts as [|t0 ts IH]; intros t rest Hex; [discriminate|].
  simpl in Hex. destruct (extract_min ts) as [[m rest']|] eqn:He.
  - destruct (IH m rest' eq_refl) as (l1 & l2 & -> & ->).
    destruct (due t0 <=? due m); injection Hex as <- <-.
    + by exists [], (l1 ++ m :: l2).
    + by exists (t0 :: l1), l2.
  - injection Hex as <- <-. exists [], []. split; [|done].
    destruct ts as [|t1 ts]; [done|]. simpl in He.
    destruct (extract_min ts) as [[m r]|]; [destruct (due t1 <=? due m)|];
      discriminate.
Qed.

(** An error count reaches drained zip subscriptions: none emits. *)
Lemma zips_onNext_drained v now zs :
  Forall drained zs ->
  exists zs', zips_onNext SErrorCount v now zs = (zs', []) /\ Forall drained zs'.
Proof.
  induction 1 as [|z zs [Hi Hm] _ (zs' & IH & Hd)]; [by exists []|].
  simpl. rewrite IH. unfold zip_onNext, zip_push. rewrite Hi. simpl.
  eexists. split; [reflexivity|]. constructor; [|done]. by split.
Qed.

Lemma delay_within_maximum (now I e M : Z) :
  due (timer now (computedInterval I e M) (TLoop Retry)) <= now + Z.max 0 M.
Proof.
  unfold computedInterval. simpl. pose proof (Z.le_min_r (I * 2 ^ e) M). lia.
Qed.

Lemma on_failure_steady k p : calm p -> steady (on_failure k p).
Proof.
  intros (Hd & Hb & Hs). unfold on_failure.
  rewrite subscribe_computedInterval_eq, onNext_eq. simpl.
  destruct (zips_onNext_drained (_errorCount p + 1) (clock p) (zips p) Hd)
    as (zs' & -> & Hd'). simpl. rewrite app_nil_r.
  unfold steady. simpl. split; [|split].
  - apply Forall_forall. intros z Hz. apply list_elem_of_filter in Hz.
    destruct Hz as [_ Hz]. apply elem_of_app in Hz. destruct Hz as [Hz|Hz].
    + rewrite Forall_forall in Hd'. by apply Hd'.
    + apply list_elem_of_singleton in Hz. by subst z.
  - rewrite filter_app, start_timers_survive by done.
    rewrite filter_cons_True by done. rewrite filter_nil.
    apply Forall_app. split; [done|]. constructor; [|done].
    intros _. apply delay_within_maximum.
  - rewrite filter_app, start_timers_survive by done.
    rewrite filter_cons_True by done. rewrite filter_nil.
    eexists. rewrite filter_app, (proj2 (no_loop_filter _) Hs).
    rewrite filter_cons_True by done. by rewrite filter_nil.
Qed.

Lemma on_success_steady k v p : calm p -> steady (on_success k v p).
Proof.
  intros (Hd & Hb & Hs). unfold on_success.
  rewrite subscribe_computedInterval_eq, onNext_eq. simpl.
  destruct (zips_onNext_drained 0 (clock p) (zips p) Hd) as (zs' & -> & Hd').
  simpl. rewrite app_nil_r.
  unfold steady. simpl. split; [|split].
  - apply Forall_app. split; [done|]. by repeat constructor.
  - apply Forall_app. split; [done|]. constructor; [|done].
    intros _. apply (delay_within_maximum (clock p) (_interval p) 0 (_maxInterval p)).
  - eexists. rewrite filter_app, (proj2 (no_loop_filter _) Hs).
    rewrite filter_cons_True by done. by rewrite filter_nil.
Qed.

Lemma invoke_steady k p : calm p -> steady (invoke k p).
Proof.
  intros Hc. unfold invoke. destruct (_action p) as [[f|f]|];
    try by apply on_failure_steady.
  destruct Hc as (Hd & Hb & Hs). unfold steady. simpl.
  split; [done|]. split; [done|]. by apply no_loop_filter.
Qed.

Lemma steady_calm p :
  steady p ->
  match conn p with
  | Some (mkConn _ (Waiting _)) => True
  | _ => calm p
  end.
Proof.
  intros (Hd & Hb & Hp). destruct (conn p) as [[k [j|c]]|]; try done;
    by (split; [done|]; split; [done|]; apply no_loop_filter).
Qed.

Lemma fire_steady p : steady p -> steady (fire p).
Proof.
  intros Hp. unfold fire.
  destruct (extract_min (timers p)) as [[t rest]|] eqn:Hex; [|done].
  destruct (due t <=? clock p); [|done].
  destruct (extract_min_split _ _ _ Hex) as (l1 & l2 & Hts & ->).
  pose proof Hp as (Hd & Hb & Hph).
  rewrite Hts in Hb. apply Forall_app in Hb. destruct Hb as [Hb1 Hb2].
  inversion Hb2 as [|? ? Hbt Hb2']; subst.
  assert (Hb' : Forall (fun t => is_loop t ->
                   due t <= clock p + Z.max 0 (_maxInterval p)) (l1 ++ l2))
    by (apply Forall_app; by split).
  rewrite Hts, filter_app in Hph.
  unfold timer_callback, connect. destruct (tkind t) as [|c] eqn:Hk.
  - (* the timer of a start *)
    rewrite filter_cons_False in Hph
      by (unfold is_loop, is_start; rewrite Hk; simpl; tauto).
    rewrite <- filter_app in Hph. simpl.
    destruct (conn p) as [[k ph]|] eqn:Hc; simpl.
    + unfold steady. simpl. rewrite Hc. done.
    + apply (invoke_steady (next_id p)
               (set_next_id (S (next_id p)) (set_timers (l1 ++ l2) p))).
      split; [done|]. split; [done|]. by apply no_loop_filter.
  - (* a timer of the loop *)
    rewrite filter_cons_True in Hph
      by (unfold is_loop, is_start; rewrite Hk; simpl; tauto).
    simpl. destruct (conn p) as [[k [j|c']]|] eqn:Hc; simpl.
    + by destruct (filter is_loop l1).
    + destruct Hph as (t0 & Hf & Hk0).
      assert (filter is_loop l1 = [] /\ t = t0 /\ filter is_loop l2 = [])
        as (H1 & <- & H2).
      { destruct (filter is_loop l1) as [|x xs]; simpl in Hf.
        - injection Hf as -> ->. done.
        - injection Hf as _ Hxs. by destruct xs. }
      assert (c = c') as <- by congruence.
      replace (chain_eqb c c) with true by (by destruct c).
      apply (invoke_steady k (set_timers (l1 ++ l2) p)).
      split; [done|]. split; [done|].
      apply no_loop_filter. simpl. by rewrite filter_app, H1, H2.
    + by destruct (filter is_loop l1).
Qed.

Lemma step_steady b p e :
  steady p -> well_linked p ->
  match e, conn p with
  | SetConfig _, Some _ => True
  | _, _ => steady (step b p e)
  end.
Proof.
  intros Hp Hl. pose proof Hp as (Hd & Hb & Hph).
  destruct e as [f| |c|fn|cb|dt| |i o]; simpl.
  - (* start *)
    unfold steady. simpl. split; [done|]. split.
    + apply Forall_app. split; [done|]. constructor; [|done]. by intros [].
    + rewrite filter_app, filter_cons_False, filter_nil, app_nil_r by (simpl; tauto).
      exact Hph.
  - (* stop *)
    unfold stop. destruct (_connection p) as [|k]; [done|].
    destruct (conn p) as [c|] eqn:Hc; [|done].
    destruct (k =? cid c)%nat; [|done].
    unfold steady. simpl. split; [done|]. split.
    + apply Forall_forall. intros t Ht. apply list_elem_of_filter in Ht.
      destruct Ht as [_ Ht]. rewrite Forall_forall in Hb. by apply Hb.
    + apply no_loop_filter, filter_is_start.
  - (* setConfig, not connected *)
    destruct (conn p) as [c'|] eqn:Hc; [done|].
    unfold well_linked in Hl. rewrite Hc in Hl. destruct Hl as [Hs Hz].
    set (p1 := onNext SInterval _ p).
    destruct (onNext_idle SInterval
                (js_or (prop_or (interval c) (_interval p)) 8000) p Hz) as [Ht1 Hz1].
    fold p1 in Ht1, Hz1.
    destruct (onNext_idle SMaxInterval
                (js_or (prop_or (maxInterval c) (_maxInterval p1)) 300000) p1 Hz1)
      as [Ht2 Hz2].
    unfold steady. rewrite Ht2, Ht1, Hz2.
    replace (conn (onNext SMaxInterval _ p1)) with (@None Conn)
      by (unfold p1; by rewrite !onNext_eq).
    split; [done|]. split; [|by apply no_loop_filter].
    apply Forall_forall. intros t Ht Hloop.
    rewrite Forall_forall in Hs. specialize (Hs t Ht).
    unfold is_loop, is_start in Hloop. by rewrite Hs in Hloop.
  - by destruct b.
  - done.
  - (* time passes *)
    unfold steady. simpl. split; [done|]. split; [|done].
    eapply Forall_impl; [exact Hb|]. simpl. intros t Ht Hloop.
    specialize (Ht Hloop). lia.
  - replace (match conn p with Some _ | _ => steady (fire p) end)
      with (steady (fire p)) by (by destruct (conn p)).
    by apply fire_steady.
  - replace (match conn p with Some _ | _ => steady (settle i o p) end)
      with (steady (settle i o p)) by (by destruct (conn p)).
    pose proof (steady_calm p Hp) as Hcalm.
    unfold settle. destruct (conn p) as [[k [j|c]]|]; try done.
    destruct (i =? j)%nat; [|done].
    destruct o; [by apply on_success_steady | by apply on_failure_steady].
Qed.

Lemma run_steady b es : forall p,
  steady p -> well_linked p -> configs_while_idle b es p = true ->
  steady (run b es p).
Proof.
  induction es as [|e es IH]; intros p Hp Hl Hes; [done|].
  rewrite run_cons. simpl in Hes.
  pose proof (step_steady b p e Hp Hl) as Hstep.
  apply IH; [|by apply step_well_linked|].
  - destruct e; try done; by destruct (conn p).
  - destruct e; try done; by destruct (conn p).
Qed.

Lemma created_steady b name c p : created b name c = Some p -> steady p.
Proof.
  rewrite created_eq. intros [= <-]. unfold steady. by destruct b.
Qed.

(** As long as [setConfig] is called only while the poller is not
    connected, no timer of the loop is ever due later than the stored
    maximum from now: the backed-off delay is capped by [maxInterval]. *)
Theorem backoff_capped_by_maxInterval (b : Build) (name : string)
    (c : IRxPollerConfig) (p : RxPoller) (es : list Event) (t : Timer) :
  created b name c = Some p ->
  configs_while_idle b es p = true ->
  t ∈ timers (run b es p) -> tkind t <> TStart ->
  due t <= clock (run b es p) + Z.max 0 (_maxInterval (run b es p)).
Proof.
  intros Hp Hes Ht Hk.
  destruct (run_steady b es p) as (_ & Hb & _);
    [by eapply created_steady | by eapply created_well_linked | done |].
  rewrite Forall_forall in Hb. apply Hb; [done|].
  unfold is_loop, is_start. by destruct (tkind t).
Qed.

Lemma backoff_capped_by_maxInterval_witness :
  mkTimer 18050 (TLoop Retry) ∈ timers (run Dist two_failures_script posts_poller) /\
  due (mkTimer 18050 (TLoop Retry))
    <= clock (run Dist two_failures_script posts_poller)
       + Z.max 0 (_maxInterval (run Dist two_failures_script posts_poller)).
Proof.
  assert (Hin : mkTimer 18050 (TLoop Retry)
                  ∈ timers (run Dist two_failures_script posts_poller))
    by (vm_compute; repeat constructor).
  split; [exact Hin|].
  apply (backoff_capped_by_maxInterval Dist "posts" (mkConfig None None)
           posts_poller two_failures_script (mkTimer 18050 (TLoop Retry))).
  - apply created_eq.
  - reflexivity.
  - exact Hin.
  - discriminate.
Defined.

(** Under the same condition the loop holds at most one timer, and
    none while a call of the action is pending or the poller is not
    connected: the next delay starts only when the call has settled. *)
Theorem one_timer_after_settlement (b : Build) (name : string)
    (c : IRxPollerConfig) (p : RxPoller) (es : list Event) :
  created b name c = Some p ->
  configs_while_idle b es p = true ->
  (length (filter is_loop (timers (run b es p))) <= 1)%nat /\
  (forall k i, conn (run b es p) = Some (mkConn k (Invoking i)) ->
               filter is_loop (timers (run b es p)) = []) /\
  (conn (run b es p) = None -> filter is_loop (timers (run b es p)) = []).
Proof.
  intros Hp Hes.
  destruct (run_steady b es p) as (_ & _ & Hph);
    [by eapply created_steady | by eapply created_well_linked | done |].
  destruct (conn (run b es p)) as [[k [j|ch]]|].
  - rewrite Hph. split; [simpl; lia|]. by split.
  - destruct Hph as (t & -> & _). split; [simpl; lia|]. by split.
  - rewrite Hph. split; [simpl; lia|]. by split.
Qed.

Lemma one_timer_after_settlement_witness :
  (length (filter is_loop (timers (run Dist one_success_script posts_poller)))
   <= 1)%nat /\
  (forall k i,
     conn (run Dist one_success_script posts_poller) = Some (mkConn k (Invoking i)) ->
     filter is_loop (timers (run Dist one_success_script posts_poller)) = []) /\
  (conn (run Dist one_success_script posts_poller) = None ->
   filter is_loop (timers (run Dist one_success_script posts_poller)) = []).
Proof.
  apply (one_timer_after_settlement Dist "posts" (mkConfig None None)
           posts_poller one_success_script).
  - apply created_eq.
  - reflexivity.
Defined.

(** ** start *)

(** [start] arms one timer, for the interval stored when it is called
    (for 0 when forced); a [setConfig] while that timer is pending does
    not move it.  The first call of the action is made by the first turn
    of the scheduler at or after that time, and by none before. *)
Theorem first_call_after_start (name : string) (c c' : IRxPollerConfig)
    (f : Fn) (forceStart : bool) (dt : Z) :
  0 <= dt ->
  exists p, created Dist name c = Some p /\
    let d := Z.max 0 (if forceStart then 0 else _interval p) in
    invocations
      (run Dist [SetAction f; Start forceStart; SetConfig c'; Elapse dt; Fire] p)
    = if d <=? dt then [(f, dt)] else [].
Proof.
  intros Hdt. rewrite created_eq. eexists. split; [reflexivity|].
  destruct c as [ci cm], c' as [ci' cm']. cbv zeta. unfold named, configured.
  destruct forceStart.
  - change (Z.max 0 0) with 0. replace (0 <=? dt) with true
      by (symmetry; apply Z.leb_le; lia).
    do 5 run_step. cbv -[Z.add Z.max js_or prop_or]. do 2 f_equal. lia.
  - match goal with |- context [if ?a <=? ?b then _ else _] =>
      destruct (Z.leb_spec a b) as [Hle|Hlt] end.
    + cbv -[Z.add Z.max Z.le js_or prop_or] in Hle.
      do 5 run_step. cbv -[Z.add Z.max js_or prop_or]. do 2 f_equal. lia.
    + cbv -[Z.add Z.max Z.lt js_or prop_or] in Hlt.
      do 5 run_step. reflexivity.
Qed.

Lemma first_call_after_start_witness :
  exists p, created Dist "posts" (mkConfig (Some 5000) None) = Some p /\
    let d := Z.max 0 (if false then 0 else _interval p) in
    invocations
      (run Dist [SetAction 7%nat; Start false; SetConfig (mkConfig (Some 100) None);
                 Elapse 4999; Fire] p)
    = if d <=? 4999 then [(7%nat, 4999)] else [].
Proof.
  apply (first_call_after_start "posts" (mkConfig (Some 5000) None)
           (mkConfig (Some 100) None) 7%nat false 4999).
  lia.
Defined.

(** ** stop, then start *)

Lemma stop_next_id p : next_id (stop p) = next_id p.
Proof.
  unfold stop. destruct (_connection p); [done|].
  destruct (conn p) as [c|]; [|done]. by destruct (k =? cid c)%nat.
Qed.

(** Neither [stop] nor [start] resets the backoff.  After [stop] and a
    forced [start] the poller connects anew and calls the action at
    once; when that call fails, the error count goes on from where it
    was before the [stop], and so does the delay. *)
Theorem restart_keeps_backoff (b : Build) (name : string) (c : IRxPollerConfig)
    (p : RxPoller) (es : list Event) (g : Fn) (e : Value) :
  created b name c = Some p ->
  Forall (fun t => tkind t <> TStart) (timers (run b es p)) ->
  _action (run b es p) = Some (CallsFn g) ->
  let q := run b es p in
  let r := run b [Stop; Start true; Fire] q in
  let i := S (next_id q) in
  trace r = trace q ++ [Invoked g i (clock q)] /\
  conn r = Some (mkConn (next_id q) (Invoking i)) /\
  _errorCount (settle i (Rejected e) r) = _errorCount q + 1 /\
  timers (settle i (Rejected e) r)
    = [timer (clock q)
         (computedInterval (_interval q) (_errorCount q + 1) (_maxInterval q))
         (TLoop Retry)].
Proof.
  intros Hp Hns Ha q r i.
  assert (Hl : well_linked q) by (by eapply run_well_linked, created_well_linked).
  destruct (stop_quiet q Hl Hns) as (Hc & Ht & Hz).
  pose proof (stop_frame q) as (_ & Has & His & Hms & _ & Hcs).
  pose proof (stop_trace q) as Htr. pose proof (stop_errorCount q) as Hec.
  pose proof (stop_next_id q) as Hid.
  fold q in Ha. rewrite <- Has in Ha.
  assert (Hr : r = set_connection (DConnect (next_id q))
                     (set_phase (next_id q) (Invoking i)
                        (set_next_id (S i)
                           (set_trace (trace q ++ [Invoked g i (clock q)])
                              (stop q))))).
  { unfold r, run, i. simpl. unfold fire, start. simpl. rewrite Ht. simpl.
    rewrite Z.add_0_r, Z.leb_refl. simpl. unfold connect. simpl.
    rewrite Hc. simpl.
    unfold invoke. simpl. rewrite Ha. simpl.
    rewrite Hid, Hcs, Htr. destruct (stop q); simpl in *. by subst. }
  rewrite Hr. simpl. split; [done|]. split; [done|].
  unfold settle. simpl. rewrite Nat.eqb_refl.
  unfold on_failure. rewrite subscribe_computedInterval_eq, onNext_eq. simpl.
  rewrite Hz, Ht, Hec, His, Hms, Hcs. simpl. split; [done|].
  rewrite filter_cons_True by done. by rewrite filter_nil.
Qed.

Lemma restart_keeps_backoff_witness :
  let q := run Dist two_failures_script posts_poller in
  let r := run Dist [Stop; Start true; Fire] q in
  let i := S (next_id q) in
  trace r = trace q ++ [Invoked 7%nat i (clock q)] /\
  conn r = Some (mkConn (next_id q) (Invoking i)) /\
  _errorCount (settle i (Rejected 0%nat) r) = _errorCount q + 1 /\
  timers (settle i (Rejected 0%nat) r)
    = [timer (clock q)
         (computedInterval (_interval q) (_errorCount q + 1) (_maxInterval q))
         (TLoop Retry)].
Proof.
  apply (restart_keeps_backoff Dist "posts" (mkConfig None None)
           posts_poller two_failures_script 7%nat 0%nat).
  - apply created_eq.
  - vm_compute. repeat constructor; discriminate.
  - reflexivity.
Defined.
